(** * goog.debug.ErrorHandler: protected entry points

    A shallow embedding of [closure/goog/debug/errorhandler.js] and the
    properties of its wrappers: memoisation on the wrapped function,
    catch / report / re-throw, the optional tracer bracket and the
    [window.setTimeout] / [window.setInterval] shims. *)

From Stdlib Require Import Ascii String.
From stdpp Require Import gmap strings pretty list.

Local Open Scope string_scope.
Local Open Scope list_scope.

(** ** Values and function objects *)

(** Modelled from the spec: [goog.getUid] is not in src/; the memo name is
    made from the identity of the guard instance, so a guard, an instance
    of [goog.debug.ErrorHandler], is named by what [goog.getUid(this)]
    answers for it.  Its handler is fixed by the constructor (see
    [errorHandlerFn_] below); its trace flag is mutable and lives in the
    state. *)
Record Guard := mkGuard { uid : N }.

(** Function objects.  A plain function is one of the application's own
    functions, named by its index in the behaviour table.  A protected
    function is the closure returned by [getProtectedFunction]: [id] is the
    identity of the closure object, the other fields are the variables it
    captured ([that], [tracers], [stackTrace], [fn]). *)
Inductive Fn :=
| PlainFn (n : nat)
| ProtectedFn (id : nat) (that : Guard) (tracers : bool)
              (stackTrace : option string) (fn : Fn).

(** Values: the primitives, and the objects that occur: function objects,
    guards, the global object [window], and the wrapper objects of boxed
    primitives. *)
Inductive Value :=
| VUndefined
| VNull
| VBool (b : bool)
| VNum (z : Z)
| VStr (s : string)
| VFn (f : Fn)
| VGuard (g : Guard)
| VWindow
| VBooleanObject (b : bool)
| VNumberObject (z : Z)
| VStringObject (s : string).

Definition is_object (v : Value) : bool :=
  match v with
  | VFn _ | VGuard _ | VWindow
  | VBooleanObject _ | VNumberObject _ | VStringObject _ => true
  | VUndefined | VNull | VBool _ | VNum _ | VStr _ => false
  end.

(** The file has no ["use strict"]: the closures it creates are non-strict
    functions, whose [this] is always an object.  A receiver that is
    [undefined] or [null] is replaced by the global object, a primitive by
    its wrapper object, and an object is taken as it is. *)
Definition sloppyThis (this : Value) : Value :=
  match this with
  | VUndefined | VNull => VWindow
  | VBool b => VBooleanObject b
  | VNum z => VNumberObject z
  | VStr s => VStringObject s
  | VFn _ | VGuard _ | VWindow
  | VBooleanObject _ | VNumberObject _ | VStringObject _ => this
  end.

(** What a call does: it returns a value or throws one. *)
Inductive Completion :=
| Return (v : Value)
| Throw (e : Value).

Global Instance Guard_eq_dec : EqDecision Guard.
Proof. solve_decision. Defined.

Global Instance Fn_eq_dec : EqDecision Fn.
Proof. solve_decision. Defined.

(** Function objects are keys of the property store: a closure is told
    from every other by its [id], a plain function by its index. *)
Fixpoint Fn_layers (f : Fn) : list (nat * N * bool * option string) * nat :=
  match f with
  | PlainFn n => ([], n)
  | ProtectedFn id that tracers stackTrace fn =>
      let '(l, n) := Fn_layers fn in
      ((id, uid that, tracers, stackTrace) :: l, n)
  end.

Fixpoint Fn_of_layers (l : list (nat * N * bool * option string)) (n : nat)
  : Fn :=
  match l with
  | [] => PlainFn n
  | (id, u, tracers, stackTrace) :: l' =>
      ProtectedFn id (mkGuard u) tracers stackTrace (Fn_of_layers l' n)
  end.

Lemma Fn_of_layers_layers (f : Fn) :
  Fn_of_layers (Fn_layers f).1 (Fn_layers f).2 = f.
Proof.
  induction f as [n | id [u] tracers stackTrace fn IH]; simpl; [reflexivity|].
  destruct (Fn_layers fn) as [l n]; simpl in *. by rewrite IH.
Qed.

Global Instance Fn_countable : Countable Fn.
Proof.
  apply (inj_countable' Fn_layers (fun p => Fn_of_layers p.1 p.2)).
  apply Fn_of_layers_layers.
Defined.

Inductive SchedName := SetTimeout | SetInterval.

(** The value bound to [window.setTimeout] or [window.setInterval]: the
    host's own scheduler, which may or may not have a [.call] property, or
    the shim installed over a previous binding. *)
Inductive Sched :=
| HostSched (name : SchedName) (hasCall : bool)
| ShimSched (that : Guard) (original : Sched).

(** Every call the wrappers make to a collaborator is recorded, in order. *)
Inductive Event :=
| EvGetStacktrace (depth : nat)
| EvStartTracer (label : string) (tracer : Value)
| EvStopTracer (tracer : Value)
| EvApply (fn : Fn) (this : Value) (args : list Value)
| EvHandler (g : Guard) (this : Value) (e : Value)
| EvHost (name : SchedName) (this : Value) (args : list Value).

(** ** getStackTraceHolder_ *)

Definition CR : ascii := "013"%char.
Definition LF : ascii := "010"%char.

Definition STACK_BR : string := "##STACK_BR##".

(** [stackTrace.replace(/(\r\n|\r|\n)/g, '##STACK_BR##')]: scanning from the
    left, a CR followed by LF is one match, then a lone CR, then a lone LF. *)
Fixpoint replaceNewlines (s : string) : string :=
  match s with
  | EmptyString => EmptyString
  | String c rest =>
      if Ascii.eqb c CR then
        match rest with
        | String c' rest' =>
            if Ascii.eqb c' LF then STACK_BR +:+ replaceNewlines rest'
            else STACK_BR +:+ replaceNewlines rest
        | EmptyString => STACK_BR
        end
      else if Ascii.eqb c LF then STACK_BR +:+ replaceNewlines rest
      else String c (replaceNewlines rest)
  end.

(** Whether a string holds a CR or an LF. *)
Fixpoint has_newline (s : string) : bool :=
  match s with
  | EmptyString => false
  | String c rest => Ascii.eqb c CR || Ascii.eqb c LF || has_newline rest
  end.

(** The marker as the specification words it: the stack is cut into lines
    at its newline sequences, a CR followed by LF, a lone CR or a lone LF,
    and the lines are put together again with [##STACK_BR##] between each
    line and the next.  [spec_lines] gives the lines of a text, at least
    one; [spec_join] puts lines together with a separator. *)
Fixpoint spec_lines (s : string) : list string :=
  match s with
  | EmptyString => [EmptyString]
  | String c rest =>
      if Ascii.eqb c CR then
        match rest with
        | String c' rest' =>
            if Ascii.eqb c' LF then EmptyString :: spec_lines rest'
            else EmptyString :: spec_lines rest
        | EmptyString => [EmptyString; EmptyString]
        end
      else if Ascii.eqb c LF then EmptyString :: spec_lines rest
      else
        match spec_lines rest with
        | line :: lines => String c line :: lines
        | [] => [String c EmptyString]
        end
  end.

Fixpoint spec_join (sep : string) (lines : list string) : string :=
  match lines with
  | [] => EmptyString
  | line :: lines' =>
      match lines' with
      | [] => line
      | _ :: _ => line +:+ sep +:+ spec_join sep lines'
      end
  end.

(** Whether a string ends in CR, and whether it begins with LF: the one
    place where cutting a text in two changes the newlines found in it. *)
Fixpoint ends_with_CR (s : string) : bool :=
  match s with
  | EmptyString => false
  | String c EmptyString => Ascii.eqb c CR
  | String _ rest => ends_with_CR rest
  end.

Definition starts_with_LF (s : string) : bool :=
  match s with
  | EmptyString => false
  | String c _ => Ascii.eqb c LF
  end.

Definition getStackTraceHolder_ (stackTrace : string) : string :=
  "##PE_STACK_START##" +:+ replaceNewlines stackTrace +:+ "##PE_STACK_END##".

(** The thrown value when a property of [undefined] is read. *)
Definition TypeError : Value := VStr "TypeError".

(** ['' + b] for a boolean. *)
Definition bool_to_string (b : bool) : string :=
  if b then "true" else "false".

(** The name of the memo property:
    ['__protected_' + goog.getUid(this) + '_' + flag + '__']. *)
Definition protectedFnName (that : Guard) (flag : bool) : string :=
  "__protected_" +:+ pretty (uid that) +:+ "_" +:+ bool_to_string flag +:+ "__".

(** ** The environment *)

(** What the file calls into and does not define: the application's own
    functions, the stack capture, the handlers given to the constructor and
    the host's timers.  The application's functions and the host's timers
    act on the application's state only: they run to completion and do not
    call back into the guard. *)
Class Env := {
  (** The application's state, which plain functions read and write. *)
  U : Type;
  (** The code of the application's plain functions (handlers included):
      receiver, arguments and state in; completion and state out. *)
  behaviour : nat -> Value -> list Value -> U -> Completion * U;
  (** Modelled from the spec: [goog.debug.getStacktraceSimple] is not in
      src/; [captureStackTrace(maxFrames) -> string] reads the call stack
      current at the moment of the call. *)
  getStacktraceSimple : nat -> U -> string;
  (** The handler each guard was constructed with
      ([this.errorHandlerFn_ = handler]), as an index into [behaviour]. *)
  errorHandlerFn_ : Guard -> nat;
  (** The host's scheduling primitives [window.setTimeout] and
      [window.setInterval]. *)
  hostTimer : SchedName -> Value -> list Value -> U -> Completion * U
}.

(** ** State and operations *)

Section Model.

Context {E : Env}.

Record State := mkState {
  user : U;
  addTracersToProtectedFunctions_ : gmap N bool;
  props : gmap (Fn * string) Fn;
  nextFn : nat;
  nextTracer : nat;
  log : list Event;
  win_setTimeout : Sched;
  win_setInterval : Sched
}.

Definition set_user (u : U) (s : State) : State :=
  mkState u (addTracersToProtectedFunctions_ s) (props s) (nextFn s)
          (nextTracer s) (log s) (win_setTimeout s) (win_setInterval s).

Definition set_flags (m : gmap N bool) (s : State) : State :=
  mkState (user s) m (props s) (nextFn s)
          (nextTracer s) (log s) (win_setTimeout s) (win_setInterval s).

Definition set_props (m : gmap (Fn * string) Fn) (s : State) : State :=
  mkState (user s) (addTracersToProtectedFunctions_ s) m (nextFn s)
          (nextTracer s) (log s) (win_setTimeout s) (win_setInterval s).

Definition set_nextFn (n : nat) (s : State) : State :=
  mkState (user s) (addTracersToProtectedFunctions_ s) (props s) n
          (nextTracer s) (log s) (win_setTimeout s) (win_setInterval s).

Definition set_nextTracer (n : nat) (s : State) : State :=
  mkState (user s) (addTracersToProtectedFunctions_ s) (props s) (nextFn s)
          n (log s) (win_setTimeout s) (win_setInterval s).

Definition add_log (ev : Event) (s : State) : State :=
  mkState (user s) (addTracersToProtectedFunctions_ s) (props s) (nextFn s)
          (nextTracer s) (log s ++ [ev]) (win_setTimeout s)
          (win_setInterval s).

Definition set_win_setTimeout (f : Sched) (s : State) : State :=
  mkState (user s) (addTracersToProtectedFunctions_ s) (props s) (nextFn s)
          (nextTracer s) (log s) f (win_setInterval s).

Definition set_win_setInterval (f : Sched) (s : State) : State :=
  mkState (user s) (addTracersToProtectedFunctions_ s) (props s) (nextFn s)
          (nextTracer s) (log s) (win_setTimeout s) f.

(** [this.addTracersToProtectedFunctions_]: the prototype's [false]
    until the setter has stored an own value. *)
Definition traceFlag (that : Guard) (s : State) : bool :=
  default false (addTracersToProtectedFunctions_ s !! uid that).

Definition setAddTracersToProtectedFunctions
    (that : Guard) (newVal : bool) (s : State) : State :=
  set_flags (<[uid that := newVal]> (addTracersToProtectedFunctions_ s)) s.

(** [fn[name]] and [fn[name] = w], on the function's own properties:
    function objects are taken with the prototype they are created with,
    [Function.prototype], on which the file never writes. *)
Definition get_prop (fn : Fn) (name : string) (s : State) : option Fn :=
  props s !! (fn, name).

Definition set_prop (fn : Fn) (name : string) (w : Fn) (s : State) : State :=
  set_props (<[(fn, name) := w]> (props s)) s.

(** Modelled from the spec: [goog.debug.Trace] is not in src/;
    [startTracer(label) -> TraceHandle] answers a fresh handle and
    [stopTracer(handle) -> void] takes it back. *)
Definition startTracer (label : string) (s : State) : Value * State :=
  let h := VNum (Z.of_nat (nextTracer s)) in
  (h, set_nextTracer (S (nextTracer s)) (add_log (EvStartTracer label h) s)).

(** Modelled from the spec: [goog.debug.Trace.stopTracer] is not in src/;
    [stopTracer(handle) -> void]. *)
Definition stopTracer (tracer : Value) (s : State) : State :=
  add_log (EvStopTracer tracer) s.

(** [that.errorHandlerFn_(e)]: a method call, so the receiver is the
    guard. *)
Definition callHandler (that : Guard) (e : Value) (s : State)
  : Completion * State :=
  let s1 := add_log (EvHandler that (VGuard that) e) s in
  let '(c, u) := behaviour (errorHandlerFn_ that) (VGuard that) [e] (user s1) in
  (c, set_user u s1).

(** The head of the wrapper, before its [try]:
    [if (tracers) { var tracer = startTracer('protectedEntryPoint: ' +
    that.getStackTraceHolder_(stackTrace)); }].  [inr] is the exception
    of reading [.replace] on an undefined [stackTrace]. *)
Definition wrapperEnter (tracers : bool) (stackTrace : option string)
    (s : State) : (Value * State) + Value :=
  if tracers then
    match stackTrace with
    | Some st =>
        inl (startTracer ("protectedEntryPoint: " +:+ getStackTraceHolder_ st) s)
    | None => inr TypeError
    end
  else inl (VUndefined, s).

(** The [catch (e)] block: [that.errorHandlerFn_(e); throw e;]. *)
Definition wrapperCatch (that : Guard) (e : Value) (s : State)
  : Completion * State :=
  let '(h, s1) := callHandler that e s in
  match h with
  | Return _ => (Throw e, s1)
  | Throw e' => (Throw e', s1)
  end.

(** The [finally] block: [if (tracers) { stopTracer(tracer); }]. *)
Definition wrapperFinally (tracers : bool) (tracer : Value) (s : State)
  : State :=
  if tracers then stopTracer tracer s else s.

(** Calling a function object with a receiver and arguments.  A plain
    function is given the receiver as it is passed (it may be strict); the
    closure of [getProtectedFunction] is a non-strict function, so what it
    hands on in [fn.apply(this, arguments)] is its own [this]. *)
Fixpoint call (f : Fn) (this : Value) (args : list Value) (s : State)
  : Completion * State :=
  match f with
  | PlainFn n =>
      let '(c, u) := behaviour n this args (user s) in (c, set_user u s)
  | ProtectedFn _ that tracers stackTrace fn =>
      let this := sloppyThis this in
      match wrapperEnter tracers stackTrace s with
      | inr err => (Throw err, s)
      | inl (tracer, s1) =>
          let '(c, s2) :=
            call fn this args (add_log (EvApply fn this args) s1) in
          let '(c', s3) :=
            match c with
            | Return v => (Return v, s2)
            | Throw e => wrapperCatch that e s2
            end in
          (c', wrapperFinally tracers tracer s3)
      end
  end.

Definition getProtectedFunction (that : Guard) (fn : Fn) (s : State)
  : Fn * State :=
  let tracers := traceFlag that s in
  let '(stackTrace, s1) :=
    if tracers
    then (Some (getStacktraceSimple 15 (user s)), add_log (EvGetStacktrace 15) s)
    else (None, s) in
  (ProtectedFn (nextFn s1) that tracers stackTrace fn,
   set_nextFn (S (nextFn s1)) s1).

Definition protectEntryPoint (that : Guard) (fn : Fn) (s : State)
  : Fn * State :=
  let name := protectedFnName that (traceFlag that s) in
  match get_prop fn name s with
  | Some w => (w, s)
  | None =>
      let '(w, s1) := getProtectedFunction that fn s in
      let s2 := set_prop fn name w s1 in
      (default w (get_prop fn name s2), s2)
  end.

Definition wrap (that : Guard) (fn : Fn) (s : State) : Fn * State :=
  protectEntryPoint that fn s.

(** [f.call], which every function written in the language has and a
    host function may lack. *)
Definition hasCall (f : Sched) : bool :=
  match f with
  | HostSched _ b => b
  | ShimSched _ _ => true
  end.

(** Calling the value bound to a scheduler name with receiver [this],
    callback [fn] and the arguments after it.  The shim is
    [function(fn, time) { fn = that.protectEntryPoint(fn); ... }], a
    non-strict function: the [this] it passes to [.call] is its own.  The
    direct call [original(fn, time)] supplies no receiver. *)
Fixpoint callSched (f : Sched) (this : Value) (fn : Fn) (rest : list Value)
    (s : State) : Completion * State :=
  match f with
  | HostSched name _ =>
      let s1 := add_log (EvHost name this (VFn fn :: rest)) s in
      let '(c, u) := hostTimer name this (VFn fn :: rest) (user s1) in
      (c, set_user u s1)
  | ShimSched that original =>
      let this := sloppyThis this in
      let time := hd VUndefined rest in
      let '(fn', s1) := protectEntryPoint that fn s in
      if hasCall original
      then callSched original this fn' [time] s1
      else callSched original VUndefined fn' [time] s1
  end.

Definition protectWindowSetTimeout (that : Guard) (s : State) : State :=
  let originalSetTimeout := win_setTimeout s in
  set_win_setTimeout (ShimSched that originalSetTimeout) s.

Definition protectWindowSetInterval (that : Guard) (s : State) : State :=
  let originalSetInterval := win_setInterval s in
  set_win_setInterval (ShimSched that originalSetInterval) s.

End Model.

(** ** Invariants and observations *)

Global Instance Value_eq_dec : EqDecision Value.
Proof. solve_decision. Defined.

Global Instance SchedName_eq_dec : EqDecision SchedName.
Proof. solve_decision. Defined.

Global Instance Event_eq_dec : EqDecision Event.
Proof. solve_decision. Defined.

(** Every closure inside [f] was allocated before [n]: [f] is a function
    object that exists in a state whose allocator stands at [n]. *)
Fixpoint ids_below (n : nat) (f : Fn) : Prop :=
  match f with
  | PlainFn _ => True
  | ProtectedFn id _ _ _ fn => id < n /\ ids_below n fn
  end.

(** The handle a tracer event is about. *)
Definition handle_of (ev : Event) : option Value :=
  match ev with
  | EvStartTracer _ h => Some h
  | EvStopTracer h => Some h
  | _ => None
  end.

(** A tracer event about a handle given out between [lo] and [hi]. *)
Definition tracer_between (lo hi : nat) (ev : Event) : Prop :=
  match handle_of ev with
  | Some (VNum z) => (Z.of_nat lo <= z < Z.of_nat hi)%Z
  | Some _ => False
  | None => True
  end.

Definition is_handler_call (ev : Event) : bool :=
  match ev with EvHandler _ _ _ => true | _ => false end.

Definition is_tracer_call (ev : Event) : bool :=
  match ev with EvStartTracer _ _ | EvStopTracer _ => true | _ => false end.

Definition is_stack_capture (ev : Event) : bool :=
  match ev with EvGetStacktrace _ => true | _ => false end.

(** How many events of a kind a log holds. *)
Definition count (P : Event -> bool) (l : list Event) : nat :=
  length (List.filter P l).

Section Invariants.

Context {E : Env}.

(** What the property store holds: under the name made from a guard and a
    flag value, on an existing function [fn], a closure built by that guard
    around [fn] with that flag value captured (and with a stack trace when
    the flag was set). *)
Definition memo_ok (s : State) : Prop :=
  forall fn k w, props s !! (fn, k) = Some w ->
    ids_below (nextFn s) fn /\
    exists id that st tr,
      w = ProtectedFn id that tr st fn /\
      k = protectedFnName that tr /\
      id < nextFn s /\
      (tr = true -> is_Some st).

(** One operation of the guard's interface, or one call of a function or
    scheduler, on existing function objects. *)
Inductive step : State -> State -> Prop :=
| step_setAddTracers that newVal s :
    step s (setAddTracersToProtectedFunctions that newVal s)
| step_protectEntryPoint that fn s :
    ids_below (nextFn s) fn ->
    step s (protectEntryPoint that fn s).2
| step_call f this args s :
    step s (call f this args s).2
| step_protectWindowSetTimeout that s :
    step s (protectWindowSetTimeout that s)
| step_protectWindowSetInterval that s :
    step s (protectWindowSetInterval that s)
| step_setTimeout this fn rest s :
    ids_below (nextFn s) fn ->
    step s (callSched (win_setTimeout s) this fn rest s).2
| step_setInterval this fn rest s :
    ids_below (nextFn s) fn ->
    step s (callSched (win_setInterval s) this fn rest s).2.

(** What one call appended to the log. *)
Definition events (f : Fn) (this : Value) (args : list Value) (s : State)
  : list Event :=
  drop (length (log s)) (log (call f this args s).2).

(** What the [try] / [catch] of a guard's wrapper makes of the completion
    [c] of the wrapped function, which left the application state [u]: a
    return passes; on a throw the handler runs on [u], and the thrown value
    passes unless the handler throws. *)
Definition handled (that : Guard) (c : Completion) (u : U) : Completion * U :=
  match c with
  | Return v => (Return v, u)
  | Throw e =>
      let '(h, u') := behaviour (errorHandlerFn_ that) (VGuard that) [e] u in
      (match h with Return _ => Throw e | Throw e' => Throw e' end, u')
  end.

End Invariants.

(** The log without the tracer's events. *)
Definition visible (l : list Event) : list Event :=
  List.filter (fun ev => negb (is_tracer_call ev)) l.

(** An event with the tracer handle forgotten: handles are fresh numbers,
    so two runs of one call differ in them and in nothing else. *)
Definition erase_handle (ev : Event) : Event :=
  match ev with
  | EvStartTracer label _ => EvStartTracer label VUndefined
  | EvStopTracer _ => EvStopTracer VUndefined
  | _ => ev
  end.

(** The handler call that the [catch] block of a guard's wrapper logs
    after the wrapped function completed with [c]. *)
Definition reported (that : Guard) (c : Completion) : list Event :=
  match c with
  | Return _ => []
  | Throw e => [EvHandler that (VGuard that) e]
  end.

(** Every closure of [f] that captured a set flag captured a stack with
    it, as [getProtectedFunction] builds them. *)
Fixpoint wf_fn (f : Fn) : Prop :=
  match f with
  | PlainFn _ => True
  | ProtectedFn _ _ tracers stackTrace fn =>
      (tracers = true -> is_Some stackTrace) /\ wf_fn fn
  end.

(** The application's function at the bottom of a tower of closures. *)
Fixpoint innermost (f : Fn) : nat :=
  match f with
  | PlainFn n => n
  | ProtectedFn _ _ _ _ fn => innermost fn
  end.

(** How many closures a tower has, and how many of them captured a set
    flag. *)
Fixpoint layers (f : Fn) : nat :=
  match f with
  | PlainFn _ => 0
  | ProtectedFn _ _ _ _ fn => S (layers fn)
  end.


(** Reading a log with the spans in [opened] still open, innermost first:
    a start opens a span, a stop must close the innermost open one.  The
    answer is the spans open at the end, or [None] when a stop does not
    match. *)
Fixpoint spans (opened : list Value) (l : list Event) : option (list Value) :=
  match l with
  | [] => Some opened
  | EvStartTracer _ h :: l' => spans (h :: opened) l'
  | EvStopTracer h :: l' =>
      match opened with
      | h' :: rest => if decide (h = h') then spans rest l' else None
      | [] => None
      end
  | _ :: l' => spans opened l'
  end.

(** ** A concrete environment

    Function 0 returns 7, function 1 throws ["x"], function 2 is a handler
    that records what it is given (the [log.push(e)] of the usual example),
    function 3 is a handler that itself throws ["boom"], function 4 is a
    strict function that returns its receiver.  Guard 1 reports to
    function 2, every other guard to function 3. *)

Definition demo_stack : string :=
  "at f" +:+ String CR (String LF "at g") +:+ String LF "at h".

Definition demo_behaviour (n : nat) (this : Value) (args : list Value)
    (u : list Value) : Completion * list Value :=
  match n with
  | 0 => (Return (VNum 7), u)
  | 1 => (Throw (VStr "x"), u)
  | 2 => (Return VUndefined, (u ++ [hd VUndefined args])%list)
  | 3 => (Throw (VStr "boom"), u)
  | 4 => (Return this, u)
  | _ => (Return VUndefined, u)
  end.

Definition demo_handler (g : Guard) : nat :=
  if decide (uid g = 1%N) then 2 else 3.

Definition demo_env : Env := {|
  U := list Value;
  behaviour := demo_behaviour;
  getStacktraceSimple := fun _ _ => demo_stack;
  errorHandlerFn_ := demo_handler;
  hostTimer := fun _ _ _ u => (Return (VNum 42), u)
|}.

(** The state of a page before anything was protected; [hasCall] tells
    whether the host's timers have a [.call] property. *)
Definition demo_init (hasCall : bool) : @State demo_env :=
  mkState (E := demo_env) [] ∅ ∅ 0 0 [] (HostSched SetTimeout hasCall)
          (HostSched SetInterval hasCall).

Definition demo_g1 : Guard := mkGuard 1.
Definition demo_g2 : Guard := mkGuard 2.

(** A page whose [setTimeout] has [.call] and whose [setInterval] has
    not. *)
Definition demo_mixed : @State demo_env :=
  set_win_setInterval (HostSched SetInterval false) (demo_init true).

(** The same page after [g.setAddTracersToProtectedFunctions(true)]. *)
Definition demo_traced (g : Guard) : @State demo_env :=
  setAddTracersToProtectedFunctions g true (demo_init true).

(** [g.protectEntryPoint(fn)] and the state it leaves. *)
Definition demo_protect (g : Guard) (fn : Fn) (s : @State demo_env) : Fn :=
  (protectEntryPoint g fn s).1.

Definition demo_protected (g : Guard) (fn : Fn) (s : @State demo_env)
  : @State demo_env :=
  (protectEntryPoint g fn s).2.

(** A later state: the flag of guard 1 was set, function 1 was protected,
    and the flag was cleared again. *)
Definition demo_later (s : @State demo_env) : @State demo_env :=
  setAddTracersToProtectedFunctions demo_g1 false
    (protectEntryPoint demo_g1 (PlainFn 1)
       (setAddTracersToProtectedFunctions demo_g1 true s)).2.

(** ** Facts about strings and the memo property name *)

Lemma string_app_nil (t : string) : EmptyString +:+ t = t.
Proof. reflexivity. Qed.

Lemma string_app_cons (a : ascii) (s t : string) :
  String a s +:+ t = String a (s +:+ t).
Proof. reflexivity. Qed.

Lemma string_app_assoc (a b c : string) : (a +:+ b) +:+ c = a +:+ (b +:+ c).
Proof.
  induction a as [|x a IH]; [reflexivity|].
  rewrite !string_app_cons. by rewrite IH.
Qed.

Lemma string_app_length (a b : string) :
  String.length (a +:+ b) = String.length a + String.length b.
Proof.
  induction a as [|x a IH]; [reflexivity|].
  rewrite string_app_cons. simpl. by rewrite IH.
Qed.

(** Two concatenations with tails of the same length agree part by part. *)
Lemma string_app_inj_tail (a b s t : string) :
  String.length s = String.length t ->
  a +:+ s = b +:+ t -> a = b /\ s = t.
Proof.
  revert b. induction a as [|x a IH]; intros [|y b] Hlen Heq.
  - by rewrite !string_app_nil in Heq.
  - rewrite string_app_nil in Heq. subst s.
    rewrite string_app_cons in Hlen. simpl in Hlen.
    rewrite string_app_length in Hlen. lia.
  - rewrite string_app_nil in Heq. subst t.
    rewrite string_app_cons in Hlen. simpl in Hlen.
    rewrite string_app_length in Hlen. lia.
  - rewrite !string_app_cons in Heq. injection Heq as -> Heq.
    destruct (IH b Hlen Heq) as [-> ->]. done.
Qed.

(** The property name determines the guard and the flag it was made from. *)
Lemma protectedFnName_inj (g1 g2 : Guard) (b1 b2 : bool) :
  protectedFnName g1 b1 = protectedFnName g2 b2 -> g1 = g2 /\ b1 = b2.
Proof.
  unfold protectedFnName. intros H.
  apply (inj (String.app _)) in H.
  destruct g1 as [u1], g2 as [u2]; simpl in H.
  destruct b1, b2; simpl in H.
  - apply string_app_inj_tail in H as [H _]; [|reflexivity].
    by apply (inj pretty) in H as ->.
  - change ("_" +:+ "true" +:+ "__") with ("_" +:+ "true__") in H.
    change ("_" +:+ "false" +:+ "__") with ("_f" +:+ "alse__") in H.
    rewrite <- !string_app_assoc in H.
    apply string_app_inj_tail in H as [_ H]; [|reflexivity]. discriminate H.
  - change ("_" +:+ "true" +:+ "__") with ("_" +:+ "true__") in H.
    change ("_" +:+ "false" +:+ "__") with ("_f" +:+ "alse__") in H.
    rewrite <- !string_app_assoc in H.
    apply string_app_inj_tail in H as [_ H]; [|reflexivity]. discriminate H.
  - apply string_app_inj_tail in H as [H _]; [|reflexivity].
    by apply (inj pretty) in H as ->.
Qed.


(** ** Facts about the stack marker *)

Lemma has_newline_app (a b : string) :
  has_newline (a +:+ b) = has_newline a || has_newline b.
Proof.
  induction a as [|x a IH]; [reflexivity|].
  rewrite string_app_cons. simpl. rewrite IH. by rewrite orb_assoc.
Qed.

Lemma replaceNewlines_cons_other (c : ascii) (s : string) :
  Ascii.eqb c CR = false -> Ascii.eqb c LF = false ->
  replaceNewlines (String c s) = String c (replaceNewlines s).
Proof. intros H1 H2. simpl. by rewrite H1, H2. Qed.

(** No CR and no LF is left by the replacement. *)
Lemma replaceNewlines_no_newline (s : string) :
  has_newline (replaceNewlines s) = false.
Proof.
  cut (has_newline (replaceNewlines s) = false /\
       forall c, has_newline (replaceNewlines (String c s)) = false).
  { by intros [? _]. }
  induction s as [|a s [IH1 IH2]].
  - split; [reflexivity|]. intros c. simpl.
    destruct (Ascii.eqb c CR) eqn:H1; [reflexivity|].
    destruct (Ascii.eqb c LF) eqn:H2; [reflexivity|].
    simpl. by rewrite H1, H2.
  - split; [apply IH2|]. intros c.
    change (replaceNewlines (String c (String a s))) with
      (if Ascii.eqb c CR then
         if Ascii.eqb a LF then STACK_BR +:+ replaceNewlines s
         else STACK_BR +:+ replaceNewlines (String a s)
       else if Ascii.eqb c LF then STACK_BR +:+ replaceNewlines (String a s)
       else String c (replaceNewlines (String a s))).
    destruct (Ascii.eqb c CR) eqn:H1; [destruct (Ascii.eqb a LF)|
      destruct (Ascii.eqb c LF) eqn:H2];
      rewrite ?has_newline_app, ?IH1, ?IH2; try reflexivity.
    cbn [has_newline]. by rewrite H1, H2, IH2.
Qed.

(** A text without CR and LF is left as it is. *)
Lemma replaceNewlines_id (s : string) :
  has_newline s = false -> replaceNewlines s = s.
Proof.
  induction s as [|c s IH]; [reflexivity|]. cbn [has_newline].
  intros H. apply orb_false_iff in H as [H Hs].
  apply orb_false_iff in H as [H1 H2].
  rewrite replaceNewlines_cons_other by done. by rewrite IH.
Qed.

(** A line ended by LF, by CR LF, or by a CR that no LF follows, becomes
    the line followed by one [##STACK_BR##]. *)
Lemma replaceNewlines_line_LF (a b : string) :
  has_newline a = false ->
  replaceNewlines (a +:+ String LF b) = a +:+ STACK_BR +:+ replaceNewlines b.
Proof.
  induction a as [|c a IH]; [reflexivity|]. cbn [has_newline].
  intros H. apply orb_false_iff in H as [H Hs].
  apply orb_false_iff in H as [H1 H2].
  rewrite !string_app_cons, replaceNewlines_cons_other by done.
  by rewrite IH.
Qed.

Lemma replaceNewlines_line_CRLF (a b : string) :
  has_newline a = false ->
  replaceNewlines (a +:+ String CR (String LF b))
  = a +:+ STACK_BR +:+ replaceNewlines b.
Proof.
  induction a as [|c a IH]; [reflexivity|]. cbn [has_newline].
  intros H. apply orb_false_iff in H as [H Hs].
  apply orb_false_iff in H as [H1 H2].
  rewrite !string_app_cons, replaceNewlines_cons_other by done.
  by rewrite IH.
Qed.

Lemma replaceNewlines_line_CR (a : string) (c : ascii) (b : string) :
  has_newline a = false -> Ascii.eqb c LF = false ->
  replaceNewlines (a +:+ String CR (String c b))
  = a +:+ STACK_BR +:+ replaceNewlines (String c b).
Proof.
  intros Ha Hc. induction a as [|x a IH].
  - rewrite !string_app_nil.
    change (replaceNewlines (String CR (String c b))) with
      (if Ascii.eqb c LF then STACK_BR +:+ replaceNewlines b
       else STACK_BR +:+ replaceNewlines (String c b)).
    by rewrite Hc.
  - cbn [has_newline] in Ha. apply orb_false_iff in Ha as [H Hs].
    apply orb_false_iff in H as [H1 H2].
    rewrite !string_app_cons, replaceNewlines_cons_other by done.
    by rewrite IH.
Qed.

Lemma getStackTraceHolder_no_newline (stackTrace : string) :
  has_newline (getStackTraceHolder_ stackTrace) = false.
Proof.
  unfold getStackTraceHolder_.
  by rewrite !has_newline_app, replaceNewlines_no_newline.
Qed.

(** The source's replacement against the specification's wording. *)

Lemma replaceNewlines_CR_cons (c : ascii) (s : string) :
  replaceNewlines (String CR (String c s)) =
  if Ascii.eqb c LF then STACK_BR +:+ replaceNewlines s
  else STACK_BR +:+ replaceNewlines (String c s).
Proof. reflexivity. Qed.

Lemma replaceNewlines_LF_cons (s : string) :
  replaceNewlines (String LF s) = STACK_BR +:+ replaceNewlines s.
Proof. reflexivity. Qed.

Lemma spec_join_cons (sep line : string) (lines : list string) :
  lines <> [] ->
  spec_join sep (line :: lines) = line +:+ sep +:+ spec_join sep lines.
Proof. by destruct lines. Qed.

Lemma spec_join_cons_char (sep : string) (c : ascii) (line : string)
    (lines : list string) :
  spec_join sep (String c line :: lines)
  = String c (spec_join sep (line :: lines)).
Proof. by destruct lines. Qed.

Lemma spec_lines_CR_cons (c : ascii) (s : string) :
  spec_lines (String CR (String c s)) =
  if Ascii.eqb c LF then EmptyString :: spec_lines s
  else EmptyString :: spec_lines (String c s).
Proof. reflexivity. Qed.

Lemma spec_lines_cons_other (c : ascii) (s : string) :
  Ascii.eqb c CR = false -> Ascii.eqb c LF = false ->
  spec_lines (String c s) =
  match spec_lines s with
  | line :: lines => String c line :: lines
  | [] => [String c EmptyString]
  end.
Proof. intros H1 H2. simpl. by rewrite H1, H2. Qed.

Lemma replaceNewlines_spec (s : string) :
  replaceNewlines s = spec_join STACK_BR (spec_lines s) /\
  spec_lines s <> [] /\
  Forall (fun line => has_newline line = false) (spec_lines s).
Proof.
  set (P := fun s : string =>
    replaceNewlines s = spec_join STACK_BR (spec_lines s) /\
    spec_lines s <> [] /\
    Forall (fun line => has_newline line = false) (spec_lines s)).
  cut (P s /\ forall c, P (String c s)); [by intros [? _]|].
  induction s as [|a s [IH1 IH2]].
  - split; [by repeat split; repeat constructor|]. intros c.
    destruct (Ascii.eqb c CR) eqn:H1.
    { apply Ascii.eqb_eq in H1 as ->. by repeat split; repeat constructor. }
    destruct (Ascii.eqb c LF) eqn:H2.
    { apply Ascii.eqb_eq in H2 as ->. by repeat split; repeat constructor. }
    unfold P. rewrite replaceNewlines_cons_other, spec_lines_cons_other by done.
    simpl. repeat split; [done|]. repeat constructor. simpl. by rewrite H1, H2.
  - split; [apply IH2|]. intros c.
    destruct IH1 as (E1 & N1 & F1). destruct (IH2 a) as (E2 & N2 & F2).
    destruct (Ascii.eqb c CR) eqn:H1.
    { apply Ascii.eqb_eq in H1 as ->. unfold P.
      rewrite replaceNewlines_CR_cons, spec_lines_CR_cons.
      destruct (Ascii.eqb a LF).
      - rewrite spec_join_cons, E1 by done. by repeat split; [|constructor].
      - rewrite spec_join_cons, E2 by done. by repeat split; [|constructor]. }
    destruct (Ascii.eqb c LF) eqn:H2.
    { apply Ascii.eqb_eq in H2 as ->. unfold P.
      rewrite replaceNewlines_LF_cons.
      change (spec_lines (String LF (String a s)))
        with (EmptyString :: spec_lines (String a s)).
      rewrite spec_join_cons, E2 by done. by repeat split; [|constructor]. }
    unfold P. rewrite replaceNewlines_cons_other, spec_lines_cons_other by done.
    destruct (spec_lines (String a s)) as [|line lines] eqn:Hl; [done|].
    rewrite spec_join_cons_char, E2. split; [done|]. split; [done|].
    inversion F2 as [|? ? Hline Hlines]; subst. constructor; [|done].
    simpl. by rewrite H1, H2, Hline.
Qed.

(** ** Properties *)

Section Properties.

Context {E : Env}.

Implicit Types (s : State) (f fn w : Fn) (that : Guard) (this e v : Value)
  (args : list Value) (c : Completion).

(** *** What a call leaves alone *)

Lemma wrapperEnter_frame tracers stackTrace s tracer s1 :
  wrapperEnter tracers stackTrace s = inl (tracer, s1) ->
  user s1 = user s /\
  addTracersToProtectedFunctions_ s1 = addTracersToProtectedFunctions_ s /\
  props s1 = props s /\ nextFn s1 = nextFn s /\
  win_setTimeout s1 = win_setTimeout s /\
  win_setInterval s1 = win_setInterval s.
Proof.
  unfold wrapperEnter, startTracer. destruct tracers; [destruct stackTrace|];
    intros H; simplify_eq/=; repeat split.
Qed.

Lemma wrapperCatch_frame that e s c s1 :
  wrapperCatch that e s = (c, s1) ->
  addTracersToProtectedFunctions_ s1 = addTracersToProtectedFunctions_ s /\
  props s1 = props s /\ nextFn s1 = nextFn s /\
  nextTracer s1 = nextTracer s /\
  win_setTimeout s1 = win_setTimeout s /\
  win_setInterval s1 = win_setInterval s.
Proof.
  unfold wrapperCatch, callHandler. intros H.
  destruct (behaviour _ _ _ _) as [[r|e'] u]; simplify_eq/=; repeat split.
Qed.

Lemma wrapperFinally_frame tracers tracer s :
  user (wrapperFinally tracers tracer s) = user s /\
  addTracersToProtectedFunctions_ (wrapperFinally tracers tracer s)
    = addTracersToProtectedFunctions_ s /\
  props (wrapperFinally tracers tracer s) = props s /\
  nextFn (wrapperFinally tracers tracer s) = nextFn s /\
  nextTracer (wrapperFinally tracers tracer s) = nextTracer s /\
  win_setTimeout (wrapperFinally tracers tracer s) = win_setTimeout s /\
  win_setInterval (wrapperFinally tracers tracer s) = win_setInterval s.
Proof. destruct tracers; repeat split. Qed.

(** A call never touches the flags, the property store, the allocator of
    closures or the window's bindings. *)
Lemma call_frame f this args s c s' :
  call f this args s = (c, s') ->
  addTracersToProtectedFunctions_ s' = addTracersToProtectedFunctions_ s /\
  props s' = props s /\ nextFn s' = nextFn s /\
  win_setTimeout s' = win_setTimeout s /\
  win_setInterval s' = win_setInterval s.
Proof.
  revert this s c s'.
  induction f as [n | id that tracers stackTrace fn IH]; intros this s c s' H.
  - simpl in H. destruct (behaviour _ _ _ _) as [c0 u]. by simplify_eq/=.
  - simpl in H.
    destruct (wrapperEnter tracers stackTrace s) as [[tracer s1]|err] eqn:He;
      [|by simplify_eq].
    destruct (call fn (sloppyThis this) args _) as [c2 s2] eqn:Hc.
    apply wrapperEnter_frame in He as (_ & Ha & Hp & Hn & Ht & Hi).
    apply IH in Hc as (Ha2 & Hp2 & Hn2 & Ht2 & Hi2). simpl in *.
    destruct (wrapperFinally_frame tracers tracer s2)
      as (_ & Fa & Fp & Fn' & _ & Ft & Fi).
    destruct c2 as [v|e].
    + simplify_eq. rewrite Fa, Fp, Fn', Ft, Fi. repeat split; congruence.
    + destruct (wrapperCatch that e s2) as [c3 s3] eqn:Hk.
      apply wrapperCatch_frame in Hk as (Ka & Kp & Kn & _ & Kt & Ki).
      simplify_eq.
      destruct (wrapperFinally_frame tracers tracer s3)
        as (_ & Ga & Gp & Gn & _ & Gt & Gi).
      rewrite Ga, Gp, Gn, Gt, Gi. repeat split; congruence.
Qed.

(** *** What a call adds to the log *)

Lemma count_app (P : Event -> bool) (l1 l2 : list Event) :
  count P (l1 ++ l2) = count P l1 + count P l2.
Proof. unfold count. by rewrite List.filter_app, length_app. Qed.

Lemma count_zero_Forall (P : Event -> bool) (l : list Event) :
  count P l = 0 <-> Forall (fun ev => P ev = false) l.
Proof.
  unfold count. induction l as [|x l IH]; simpl.
  - split; [constructor|done].
  - destruct (P x) eqn:HP; simpl.
    + split; [lia|]. inversion 1; congruence.
    + rewrite IH. split; [by constructor|]. by inversion 1.
Qed.

Lemma tracer_between_weaken (lo hi lo' hi' : nat) (ev : Event) :
  lo' <= lo -> hi <= hi' ->
  tracer_between lo hi ev -> tracer_between lo' hi' ev.
Proof.
  unfold tracer_between. intros ??.
  destruct (handle_of ev) as [[]|]; try done. lia.
Qed.

Lemma Forall_tracer_between_weaken (lo hi lo' hi' : nat) (d : list Event) :
  lo' <= lo -> hi <= hi' ->
  Forall (tracer_between lo hi) d -> Forall (tracer_between lo' hi') d.
Proof.
  intros ?? Hd. eapply Forall_impl; [exact Hd|].
  intros ev. by apply tracer_between_weaken.
Qed.

(** The head of the wrapper either does nothing (no tracing) or starts one
    span, named after the captured stack, under a fresh handle. *)
Lemma wrapperEnter_inv tracers stackTrace s tracer s1 :
  wrapperEnter tracers stackTrace s = inl (tracer, s1) ->
  (tracers = false /\ tracer = VUndefined /\ s1 = s) \/
  (tracers = true /\ exists st,
     stackTrace = Some st /\
     tracer = VNum (Z.of_nat (nextTracer s)) /\
     log s1 = log s ++
       [EvStartTracer ("protectedEntryPoint: " +:+ getStackTraceHolder_ st)
                      tracer] /\
     nextTracer s1 = S (nextTracer s)).
Proof.
  unfold wrapperEnter, startTracer.
  destruct tracers; [destruct stackTrace as [st|]|]; intros H; simplify_eq/=.
  - right. split; [done|]. by exists st.
  - by left.
Qed.

Lemma wrapperCatch_inv that e s c s1 :
  wrapperCatch that e s = (c, s1) ->
  log s1 = log s ++ [EvHandler that (VGuard that) e] /\
  (behaviour (errorHandlerFn_ that) (VGuard that) [e] (user s)).2 = user s1 /\
  match (behaviour (errorHandlerFn_ that) (VGuard that) [e] (user s)).1 with
  | Return _ => c = Throw e
  | Throw e' => c = Throw e'
  end.
Proof.
  unfold wrapperCatch, callHandler. simpl.
  destruct (behaviour _ _ _ _) as [[r|e'] u]; intros H; simplify_eq/=; done.
Qed.

Lemma wrapperFinally_log tracers tracer s :
  log (wrapperFinally tracers tracer s) =
  log s ++ (if tracers then [EvStopTracer tracer] else []).
Proof. destruct tracers; simpl; [done|by rewrite app_nil_r]. Qed.

(** The body of a protected function, step by step. *)
Lemma call_protected_inv id that tracers stackTrace fn this args s c s' :
  call (ProtectedFn id that tracers stackTrace fn) this args s = (c, s') ->
  (tracers = true /\ stackTrace = None /\ c = Throw TypeError /\ s' = s) \/
  exists tracer s1 c2 s2 s3,
    wrapperEnter tracers stackTrace s = inl (tracer, s1) /\
    call fn (sloppyThis this) args
         (add_log (EvApply fn (sloppyThis this) args) s1) = (c2, s2) /\
    match c2 with
    | Return v => c = Return v /\ s3 = s2
    | Throw e => wrapperCatch that e s2 = (c, s3)
    end /\
    s' = wrapperFinally tracers tracer s3.
Proof.
  simpl. destruct (wrapperEnter tracers stackTrace s) as [[tracer s1]|err] eqn:He.
  - destruct (call fn (sloppyThis this) args _) as [c2 s2] eqn:Hc.
    intros H. right.
    exists tracer, s1, c2, s2.
    destruct c2 as [v|e].
    + exists s2. by simplify_eq.
    + destruct (wrapperCatch that e s2) as [c3 s3] eqn:Hk.
      exists s3. by simplify_eq.
  - intros H. left. unfold wrapperEnter in He.
    destruct tracers; [destruct stackTrace|]; by simplify_eq.
Qed.

(** A call only appends to the log; the tracer handles it mentions are the
    ones it was given; it never captures a stack; and a call that returns
    normally has not reached any handler. *)
Lemma call_log f this args s c s' :
  call f this args s = (c, s') ->
  exists d,
    log s' = log s ++ d /\
    nextTracer s <= nextTracer s' /\
    Forall (tracer_between (nextTracer s) (nextTracer s')) d /\
    count is_stack_capture d = 0 /\
    (forall v, c = Return v -> count is_handler_call d = 0).
Proof.
  revert this s c s'.
  induction f as [n | id that tracers stackTrace fn IH]; intros this s c s' H.
  - simpl in H. destruct (behaviour _ _ _ _) as [c0 u]. simplify_eq/=.
    exists []. rewrite app_nil_r. repeat split; [lia|constructor].
  - apply call_protected_inv in H as [(_ & _ & _ & ->)|H].
    { exists []. rewrite app_nil_r. repeat split; [lia|constructor]. }
    destruct H as (tracer & s1 & c2 & s2 & s3 & He & Hc & Hk & ->).
    apply IH in Hc as (d2 & Hl2 & Hn2 & Hf2 & Hs2 & Hh2). simpl in *.
    rewrite wrapperFinally_log.
    destruct (wrapperFinally_frame tracers tracer s3)
      as (_ & _ & _ & _ & -> & _).
    assert (exists hd, log s3 = log s2 ++ hd /\ nextTracer s3 = nextTracer s2 /\
              count is_tracer_call hd = 0 /\ count is_stack_capture hd = 0 /\
              (forall v, c = Return v ->
                 count is_handler_call (d2 ++ hd) = 0))
      as (hd & Hl3 & Hn3 & Ht3 & Hs3 & Hh3).
    { destruct c2 as [v|e].
      - destruct Hk as [-> ->]. exists []. rewrite !app_nil_r.
        repeat split; [done..|]. intros v' [= <-]. by eapply Hh2.
      - pose proof (wrapperCatch_frame _ _ _ _ _ Hk) as (_ & _ & _ & Hn & _).
        apply wrapperCatch_inv in Hk as (Hl & _ & Hc).
        eexists. split; [exact Hl|]. repeat split; [done|].
        intros v ->. destruct (behaviour _ _ _ _).1; discriminate. }
    apply wrapperEnter_inv in He
      as [(-> & -> & ->)|(-> & st & -> & -> & Hl1 & Hn1)].
    + exists (EvApply fn (sloppyThis this) args :: d2 ++ hd). rewrite Hl3, Hl2, Hn3.
      rewrite app_nil_r. repeat split.
      * by rewrite <- !app_assoc.
      * done.
      * constructor; [done|]. apply Forall_app. split; [done|].
        apply count_zero_Forall in Ht3. eapply Forall_impl; [exact Ht3|].
        intros [] ?; done.
      * change (EvApply fn (sloppyThis this) args :: d2 ++ hd)
          with ([EvApply fn (sloppyThis this) args] ++ d2 ++ hd).
        rewrite !count_app, Hs2, Hs3. done.
      * intros v Hv. change (EvApply fn (sloppyThis this) args :: d2 ++ hd)
          with ([EvApply fn (sloppyThis this) args] ++ d2 ++ hd).
        rewrite count_app. by rewrite (Hh3 v Hv).
    + exists (EvStartTracer ("protectedEntryPoint: " +:+ getStackTraceHolder_ st)
                (VNum (Z.of_nat (nextTracer s)))
              :: EvApply fn (sloppyThis this) args
              :: d2 ++ hd ++ [EvStopTracer (VNum (Z.of_nat (nextTracer s)))]).
      rewrite Hl3, Hl2, Hn3, Hl1. rewrite Hn1 in *.
      repeat split.
      * by rewrite <- !app_assoc.
      * lia.
      * constructor; [unfold tracer_between; simpl; lia|].
        constructor; [done|]. apply Forall_app. split.
        { eapply Forall_tracer_between_weaken; [| |exact Hf2]; lia. }
        apply Forall_app. split.
        { apply count_zero_Forall in Ht3. eapply Forall_impl; [exact Ht3|].
          intros [] ?; done. }
        constructor; [|constructor]. unfold tracer_between; simpl; lia.
      * match goal with |- count _ (?a :: ?b :: ?l) = _ =>
          change (a :: b :: l) with ([a; b] ++ l) end.
        rewrite !count_app, Hs2, Hs3. done.
      * intros v Hv.
        match goal with |- count _ (?a :: ?b :: ?l) = _ =>
          change (a :: b :: l) with ([a; b] ++ l) end.
        rewrite count_app, app_assoc, count_app, (Hh3 v Hv). done.
Qed.

Lemma call_events f this args s :
  log (call f this args s).2 = log s ++ events f this args s.
Proof.
  unfold events. destruct (call f this args s) as [c s'] eqn:H.
  apply call_log in H as (d & Hd & _). simpl. rewrite Hd.
  by rewrite drop_app_length.
Qed.

Lemma events_PlainFn n this args s : events (PlainFn n) this args s = [].
Proof.
  unfold events. simpl. destruct (behaviour _ _ _ _) as [c u]. simpl.
  by rewrite drop_all.
Qed.

(** The whole of a well-formed wrapper's run: the span is opened (when
    tracing), the wrapped function is applied once to the closure's own
    receiver and the same arguments, the handler is told if it threw, the
    span is closed. *)
Lemma call_protected_spec id that tracers stackTrace fn this args s :
  (tracers = true -> is_Some stackTrace) ->
  exists tracer sA,
    let w := ProtectedFn id that tracers stackTrace fn in
    let r := call fn (sloppyThis this) args sA in
    user sA = user s /\
    nextTracer sA = (if tracers then S (nextTracer s) else nextTracer s) /\
    tracer = (if tracers then VNum (Z.of_nat (nextTracer s)) else VUndefined) /\
    (call w this args s).1 = (handled that r.1 (user r.2)).1 /\
    user (call w this args s).2 = (handled that r.1 (user r.2)).2 /\
    nextTracer (call w this args s).2 = nextTracer r.2 /\
    events w this args s =
      (if tracers
       then [EvStartTracer ("protectedEntryPoint: " +:+
                            getStackTraceHolder_ (default EmptyString stackTrace)) tracer]
       else []) ++
      EvApply fn (sloppyThis this) args :: events fn (sloppyThis this) args sA ++
      reported that r.1 ++
      (if tracers then [EvStopTracer tracer] else []).
Proof.
  intros Hwf.
  destruct (wrapperEnter tracers stackTrace s) as [[tracer s1]|err] eqn:He.
  2:{ unfold wrapperEnter in He. destruct tracers; [|done].
      destruct (Hwf eq_refl) as [st ->]. done. }
  exists tracer, (add_log (EvApply fn (sloppyThis this) args) s1). simpl.
  unfold events at 1. simpl. rewrite He.
  pose proof (call_events fn (sloppyThis this) args (add_log (EvApply fn (sloppyThis this) args) s1))
    as Hev.
  destruct (call fn (sloppyThis this) args (add_log _ s1)) as [c2 s2] eqn:Hc. simpl in *.
  pose proof (wrapperEnter_frame _ _ _ _ _ He) as (Hu & _).
  assert (log s1 = log s ++
            (if tracers
             then [EvStartTracer ("protectedEntryPoint: " +:+
                     getStackTraceHolder_ (default EmptyString stackTrace)) tracer]
             else []) /\
          nextTracer s1 = (if tracers then S (nextTracer s) else nextTracer s) /\
          tracer = (if tracers then VNum (Z.of_nat (nextTracer s))
                    else VUndefined)) as (Hl1 & Hn1 & Ht).
  { apply wrapperEnter_inv in He
      as [(-> & -> & ->)|(-> & st & -> & -> & Hl1 & Hn1)].
    - by rewrite app_nil_r.
    - done. }
  split; [done|]. split; [done|]. split; [done|].
  destruct c2 as [v|e]; simpl.
  - destruct (wrapperFinally_frame tracers tracer s2)
      as (-> & _ & _ & _ & -> & _).
    repeat split. rewrite wrapperFinally_log, Hev, Hl1. simpl.
    rewrite <- !app_assoc. rewrite drop_app_length. simpl.
    by rewrite <- ?app_assoc.
  - destruct (wrapperCatch that e s2) as [c3 s3] eqn:Hk. simpl.
    pose proof (wrapperCatch_frame _ _ _ _ _ Hk) as (_ & _ & _ & Hn3 & _).
    apply wrapperCatch_inv in Hk as (Hl3 & Hu3 & Hc3).
    destruct (wrapperFinally_frame tracers tracer s3)
      as (-> & _ & _ & _ & -> & _).
    destruct (behaviour _ _ _ _) as [[r|e'] u']; simpl in *.
    all: split; [done|]; split; [done|]; split; [done|].
    all: rewrite wrapperFinally_log, Hl3, Hev, Hl1; simpl.
    all: rewrite <- !app_assoc; rewrite drop_app_length; simpl.
    all: by rewrite <- ?app_assoc.
Qed.


(** *** A call depends on the application state only *)

Lemma events_malformed id that fn this args s :
  (call (ProtectedFn id that true None fn) this args s).1 = Throw TypeError /\
  (call (ProtectedFn id that true None fn) this args s).2 = s /\
  events (ProtectedFn id that true None fn) this args s = [].
Proof. unfold events. simpl. by rewrite drop_all. Qed.

(** Two runs of one call from the same application state complete alike,
    leave the same application state and log the same events up to the
    tracer handles. *)
Lemma call_indep f this args s t :
  user s = user t ->
  (call f this args s).1 = (call f this args t).1 /\
  user (call f this args s).2 = user (call f this args t).2 /\
  map erase_handle (events f this args s)
  = map erase_handle (events f this args t).
Proof.
  revert this s t.
  induction f as [n | id that tracers stackTrace fn IH]; intros this s t Hu.
  - rewrite !events_PlainFn. simpl. rewrite Hu.
    by destruct (behaviour _ _ _ _).
  - destruct (decide (tracers = true -> is_Some stackTrace)) as [Hwf|Hwf].
    + destruct (call_protected_spec id that _ _ fn this args s Hwf)
        as (tr1 & sA & HuA & _ & Ht1 & Hc1 & Hu1 & _ & He1).
      destruct (call_protected_spec id that _ _ fn this args t Hwf)
        as (tr2 & tA & HuB & _ & Ht2 & Hc2 & Hu2 & _ & He2).
      cbv zeta in *.
      destruct (IH (sloppyThis this) sA tA) as (Ic & Iu & Ie); [congruence|].
      rewrite Hc1, Hc2, Hu1, Hu2, He1, He2, Ic, Iu.
      split; [done|]. split; [done|].
      rewrite !map_app. simpl. rewrite !map_app, Ie. subst.
      by destruct tracers.
    + destruct tracers; [|by destruct Hwf].
      destruct stackTrace as [st|]; [by destruct Hwf; eauto|].
      destruct (events_malformed id that fn this args s) as (-> & -> & ->).
      destruct (events_malformed id that fn this args t) as (-> & -> & ->).
      done.
Qed.

Lemma visible_erase (l1 l2 : list Event) :
  map erase_handle l1 = map erase_handle l2 ->
  visible l1 = visible l2 /\
  count is_handler_call l1 = count is_handler_call l2 /\
  count is_tracer_call l1 = count is_tracer_call l2.
Proof.
  revert l2. induction l1 as [|x l1 IH]; intros [|y l2] H;
    simplify_eq/=; [done|].
  destruct (IH l2) as (Hv & Hh & Ht); [done|].
  unfold visible, count in *.
  destruct x, y; simplify_eq/=; rewrite ?Hv; auto.
Qed.

Lemma visible_app (l1 l2 : list Event) :
  visible (l1 ++ l2) = visible l1 ++ visible l2.
Proof. unfold visible. by rewrite List.filter_app. Qed.

Lemma visible_reported that c : visible (reported that c) = reported that c.
Proof. by destruct c. Qed.

(** *** The memo kept on the wrapped function *)

Lemma ids_below_mono (n m : nat) f : n <= m -> ids_below n f -> ids_below m f.
Proof. intros ?. induction f; simpl; [done|]. intros [??]. split; [lia|auto]. Qed.

Lemma getProtectedFunction_inv that fn s :
  getProtectedFunction that fn s =
  (ProtectedFn (nextFn s) that (traceFlag that s)
     (if traceFlag that s then Some (getStacktraceSimple 15 (user s)) else None)
     fn,
   set_nextFn (S (nextFn s))
     (if traceFlag that s then add_log (EvGetStacktrace 15) s else s)).
Proof. unfold getProtectedFunction. by destruct (traceFlag that s). Qed.

Lemma protectEntryPoint_inv that fn s :
  let name := protectedFnName that (traceFlag that s) in
  (exists w, get_prop fn name s = Some w /\ protectEntryPoint that fn s = (w, s))
  \/
  (get_prop fn name s = None /\
   protectEntryPoint that fn s =
     ((getProtectedFunction that fn s).1,
      set_prop fn name (getProtectedFunction that fn s).1
               (getProtectedFunction that fn s).2)).
Proof.
  simpl. unfold protectEntryPoint.
  destruct (get_prop fn _ s) as [w|] eqn:Hg; [left; eauto|right].
  split; [done|]. destruct (getProtectedFunction that fn s) as [w s1]. simpl.
  unfold get_prop, set_prop. simpl. by rewrite lookup_insert_eq.
Qed.

(** Whatever [protectEntryPoint] answers is then the memo of [fn] under the
    name made from the guard and the flag. *)
Lemma protectEntryPoint_stored that fn s :
  get_prop fn (protectedFnName that (traceFlag that s))
           (protectEntryPoint that fn s).2
  = Some (protectEntryPoint that fn s).1.
Proof.
  destruct (protectEntryPoint_inv that fn s) as [(w & Hg & ->)|(Hg & ->)].
  - done.
  - unfold get_prop, set_prop. simpl. by rewrite lookup_insert_eq.
Qed.

Lemma protectEntryPoint_frame that fn s :
  let s' := (protectEntryPoint that fn s).2 in
  user s' = user s /\
  addTracersToProtectedFunctions_ s' = addTracersToProtectedFunctions_ s /\
  nextTracer s' = nextTracer s /\
  win_setTimeout s' = win_setTimeout s /\
  win_setInterval s' = win_setInterval s /\
  nextFn s <= nextFn s' /\
  props s ⊆ props s'.
Proof.
  simpl.
  destruct (protectEntryPoint_inv that fn s) as [(w & Hg & ->)|(Hg & ->)].
  - done.
  - rewrite getProtectedFunction_inv. simpl.
    destruct (traceFlag that s); simpl; repeat split; try lia;
      by apply insert_subseteq.
Qed.

Lemma protectEntryPoint_memo_ok that fn s :
  memo_ok s -> ids_below (nextFn s) fn ->
  memo_ok (protectEntryPoint that fn s).2.
Proof.
  intros Hok Hfn.
  destruct (protectEntryPoint_inv that fn s) as [(w & Hg & ->)|(Hg & ->)];
    [done|].
  rewrite getProtectedFunction_inv. simpl.
  assert (forall s0 : State,
            nextFn s0 = nextFn s -> props s0 = props s ->
            memo_ok (set_prop fn (protectedFnName that (traceFlag that s))
              (ProtectedFn (nextFn s) that (traceFlag that s)
                 (if traceFlag that s
                  then Some (getStacktraceSimple 15 (user s)) else None) fn)
              (set_nextFn (S (nextFn s)) s0))) as Hgen.
  { intros s0 Hn Hp fn' k w. unfold set_prop. simpl. rewrite Hp.
    destruct (decide ((fn, protectedFnName that (traceFlag that s)) = (fn', k)))
      as [[= <- <-]|Hne].
    - rewrite lookup_insert_eq. intros [= <-].
      split; [by eapply ids_below_mono; [|exact Hfn]; lia|].
      eexists _, _, _, _. repeat split; [lia|].
      intros ->. eauto.
    - rewrite lookup_insert_ne by done. intros Hl.
      destruct (Hok _ _ _ Hl) as (Hb & id & g & st & tr & -> & -> & Hid & Hst).
      split; [by eapply ids_below_mono; [|exact Hb]; lia|].
      eexists _, _, _, _. repeat split; [lia|done]. }
  destruct (traceFlag that s); by apply Hgen.
Qed.

(** In a state that satisfies the invariant, what [protectEntryPoint]
    answers is a closure of this guard around [fn] that captured the
    current flag. *)
Lemma protectEntryPoint_shape that fn s :
  memo_ok s ->
  exists id st,
    (protectEntryPoint that fn s).1 =
      ProtectedFn id that (traceFlag that s) st fn /\
    id < nextFn (protectEntryPoint that fn s).2 /\
    (traceFlag that s = true -> is_Some st).
Proof.
  intros Hok.
  destruct (protectEntryPoint_inv that fn s) as [(w & Hg & ->)|(Hg & ->)].
  - destruct (Hok _ _ _ Hg) as (_ & id & g & st & tr & -> & Hk & Hid & Hst).
    apply protectedFnName_inj in Hk as [<- <-]. simpl. eauto.
  - rewrite getProtectedFunction_inv. simpl.
    eexists _, _. split; [done|]. split.
    + destruct (traceFlag that s); simpl; lia.
    + intros ->. eauto.
Qed.

(** *** The invariant along any run *)

Lemma memo_ok_ext s s' :
  props s' = props s -> nextFn s' = nextFn s -> memo_ok s -> memo_ok s'.
Proof. unfold memo_ok. intros -> ->. done. Qed.

Lemma protectEntryPoint_ids that fn s :
  memo_ok s -> ids_below (nextFn s) fn ->
  ids_below (nextFn (protectEntryPoint that fn s).2)
            (protectEntryPoint that fn s).1.
Proof.
  intros Hok Hfn.
  destruct (protectEntryPoint_shape that fn s Hok) as (id & st & -> & Hid & _).
  simpl. split; [done|].
  eapply ids_below_mono; [|exact Hfn]. apply protectEntryPoint_frame.
Qed.

Lemma callSched_mono (f : Sched) this fn rest s :
  let s' := (callSched f this fn rest s).2 in
  addTracersToProtectedFunctions_ s' = addTracersToProtectedFunctions_ s /\
  nextFn s <= nextFn s' /\ props s ⊆ props s'.
Proof.
  simpl. revert this fn rest s.
  induction f as [name hc | that original IH]; intros this fn rest s.
  - simpl. by destruct (hostTimer _ _ _ _).
  - simpl.
    destruct (protectEntryPoint_frame that fn s)
      as (_ & Ha & _ & _ & _ & Hn & Hp).
    destruct (protectEntryPoint that fn s) as [w s1]. simpl in *.
    destruct (hasCall original).
    + destruct (IH (sloppyThis this) w [hd VUndefined rest] s1)
        as (Ia & In' & Ip).
      split; [congruence|]. split; [lia|]. by etrans.
    + destruct (IH VUndefined w [hd VUndefined rest] s1) as (Ia & In' & Ip).
      split; [congruence|]. split; [lia|]. by etrans.
Qed.

Lemma callSched_memo_ok (f : Sched) this fn rest s :
  memo_ok s -> ids_below (nextFn s) fn ->
  memo_ok (callSched f this fn rest s).2.
Proof.
  revert this fn rest s.
  induction f as [name hc | that original IH]; intros this fn rest s Hok Hfn.
  - simpl. destruct (hostTimer _ _ _ _). simpl.
    by eapply memo_ok_ext; [| |exact Hok].
  - simpl.
    pose proof (protectEntryPoint_memo_ok that fn s Hok Hfn) as Hok1.
    pose proof (protectEntryPoint_ids that fn s Hok Hfn) as Hid1.
    destruct (protectEntryPoint that fn s) as [w s1]. simpl in *.
    destruct (hasCall original); by apply IH.
Qed.

Lemma step_mono s s' :
  step s s' -> nextFn s <= nextFn s' /\ props s ⊆ props s'.
Proof.
  destruct 1 as [that b s|that fn s _|f this args s|that s|that s
                 |this fn rest s _|this fn rest s _].
  - done.
  - apply protectEntryPoint_frame.
  - destruct (call f this args s) as [c s'] eqn:H.
    apply call_frame in H as (_ & Hp & Hn & _). simpl. by rewrite Hp, Hn.
  - done.
  - done.
  - apply callSched_mono.
  - apply callSched_mono.
Qed.

Lemma step_memo_ok s s' : step s s' -> memo_ok s -> memo_ok s'.
Proof.
  destruct 1 as [that b s|that fn s Hfn|f this args s|that s|that s
                 |this fn rest s Hfn|this fn rest s Hfn]; intros Hok.
  - done.
  - by apply protectEntryPoint_memo_ok.
  - destruct (call f this args s) as [c s'] eqn:H.
    apply call_frame in H as (_ & Hp & Hn & _).
    by eapply memo_ok_ext; [| |exact Hok].
  - done.
  - done.
  - by apply callSched_memo_ok.
  - by apply callSched_memo_ok.
Qed.

(** The property store only grows and the invariant is kept, however many
    operations are run. *)
Lemma steps_mono s s' :
  rtc step s s' -> nextFn s <= nextFn s' /\ props s ⊆ props s'.
Proof.
  induction 1 as [s|s s1 s' H1 _ [IHn IHp]]; [done|].
  apply step_mono in H1 as [Hn Hp]. split; [lia|by etrans].
Qed.

Lemma steps_memo_ok s s' : rtc step s s' -> memo_ok s -> memo_ok s'.
Proof. induction 1; eauto using step_memo_ok. Qed.

Lemma memo_ok_empty (s : State) : props s = ∅ -> memo_ok s.
Proof. intros H fn k w. by rewrite H, lookup_empty. Qed.

(** *** Facts about the events of one call *)

Lemma events_facts f this args s :
  Forall (tracer_between (nextTracer s) (nextTracer (call f this args s).2))
         (events f this args s) /\
  nextTracer s <= nextTracer (call f this args s).2 /\
  count is_stack_capture (events f this args s) = 0 /\
  (forall v, (call f this args s).1 = Return v ->
     count is_handler_call (events f this args s) = 0).
Proof.
  pose proof (call_events f this args s) as Hev.
  destruct (call f this args s) as [c s'] eqn:H.
  destruct (call_log _ _ _ _ _ _ H) as (d & Hd & Hn & Hf & Hs & Hh).
  simpl in *. rewrite Hd in Hev. apply app_inv_head in Hev as <-. done.
Qed.

(** A later change of any guard's flag is not seen by a call. *)
Lemma call_set_flags f this args m s :
  call f this args (set_flags m s)
  = ((call f this args s).1, set_flags m (call f this args s).2).
Proof.
  revert this s.
  induction f as [n | id that tracers stackTrace fn IH]; intros this s.
  - simpl. by destruct (behaviour _ _ _ _).
  - simpl. unfold wrapperEnter, startTracer.
    destruct tracers; [destruct stackTrace as [st|]; [|done]|].
    + simpl.
      match goal with |- context [call fn (sloppyThis this) args ?x] =>
        match x with
        | add_log ?ev (set_nextTracer ?n (add_log ?ev' (set_flags m s))) =>
            change x with
              (set_flags m (add_log ev (set_nextTracer n (add_log ev' s))))
        end end.
      rewrite IH.
      destruct (call fn (sloppyThis this) args _) as [[v|e] s2]; simpl; [done|].
      unfold wrapperCatch, callHandler. simpl.
      by destruct (behaviour _ _ _ _) as [[r|e'] u].
    + simpl.
      change (add_log (EvApply fn (sloppyThis this) args) (set_flags m s))
        with (set_flags m (add_log (EvApply fn (sloppyThis this) args) s)).
      rewrite IH.
      destruct (call fn (sloppyThis this) args _) as [[v|e] s2]; simpl; [done|].
      unfold wrapperCatch, callHandler. simpl.
      by destruct (behaviour _ _ _ _) as [[r|e'] u].
Qed.

(** *** One run of a protected function, against one run of the function
        it wraps *)

Lemma count_cons (P : Event -> bool) (x : Event) (l : list Event) :
  count P (x :: l) = (if P x then 1 else 0) + count P l.
Proof. unfold count. simpl. by destruct (P x). Qed.

Lemma protected_call_run id that tracers stackTrace fn this args s :
  (tracers = true -> is_Some stackTrace) ->
  let w := ProtectedFn id that tracers stackTrace fn in
  let r := call fn (sloppyThis this) args s in
  (call w this args s).1 = (handled that r.1 (user r.2)).1 /\
  user (call w this args s).2 = (handled that r.1 (user r.2)).2 /\
  visible (events w this args s) =
    EvApply fn (sloppyThis this) args ::
    visible (events fn (sloppyThis this) args s) ++ reported that r.1 /\
  count is_handler_call (events w this args s) =
    count is_handler_call (events fn (sloppyThis this) args s) +
    length (reported that r.1) /\
  count is_tracer_call (events w this args s) =
    count is_tracer_call (events fn (sloppyThis this) args s) +
    (if tracers then 2 else 0).
Proof.
  intros Hwf. cbv zeta.
  destruct (call_protected_spec id that _ _ fn this args s Hwf)
    as (tracer & sA & HuA & _ & _ & Hc & Hu & _ & He). cbv zeta in *.
  destruct (call_indep fn (sloppyThis this) args sA s HuA) as (Ic & Iu & Ie).
  apply visible_erase in Ie as (Iv & Ih & It).
  set (this' := sloppyThis this) in *.
  rewrite Hc, Hu, He, Ic, Iu. split; [done|]. split; [done|].
  rewrite visible_app, !count_app, !count_cons, !count_app. simpl.
  change (EvApply fn this' args :: events fn this' args sA ++
          reported that (call fn this' args s).1 ++
          (if tracers then [EvStopTracer tracer] else []))
    with ([EvApply fn this' args] ++ events fn this' args sA ++
          reported that (call fn this' args s).1 ++
          (if tracers then [EvStopTracer tracer] else [])).
  rewrite !visible_app, visible_reported, Iv, Ih, It.
  destruct tracers, ((call fn this' args s).1); simpl;
    rewrite ?app_nil_r; (split; [done|]); unfold count; simpl; lia.
Qed.

(** *** The wrapper on the normal and on the error path *)

Lemma handled_Throw that e (u : U) :
  (handled that (Throw e) u).1 =
    match (behaviour (errorHandlerFn_ that) (VGuard that) [e] u).1 with
    | Return _ => Throw e
    | Throw e' => Throw e'
    end /\
  (handled that (Throw e) u).2 =
    (behaviour (errorHandlerFn_ that) (VGuard that) [e] u).2.
Proof. simpl. by destruct (behaviour _ _ _ _). Qed.

Lemma sloppyThis_idem this : sloppyThis (sloppyThis this) = sloppyThis this.
Proof. by destruct this. Qed.

Lemma sloppyThis_object this : is_object this = true -> sloppyThis this = this.
Proof. by destruct this. Qed.

Lemma sloppyThis_is_object this : is_object (sloppyThis this) = true.
Proof. by destruct this. Qed.


(** C1, as amended.  A function [fn] that throws [e] (on the receiver the
    wrapper hands it): whatever the handler does, tracer aside the wrapper
    logs the application of [fn], what [fn] itself logs, and then one call
    of the handler with [e] and the guard as receiver, which is one
    handler call more than [fn] makes by itself; and the wrapper throws:
    [e] itself when the handler returns normally, the handler's exception
    when the handler throws. *)
Theorem protected_call_reports_and_rethrows that fn s0 w s1 this args s e :
  memo_ok s0 ->
  protectEntryPoint that fn s0 = (w, s1) ->
  (call fn (sloppyThis this) args s).1 = Throw e ->
  visible (events w this args s) =
    EvApply fn (sloppyThis this) args ::
    visible (events fn (sloppyThis this) args s) ++
    [EvHandler that (VGuard that) e] /\
  count is_handler_call (events w this args s) =
    S (count is_handler_call (events fn (sloppyThis this) args s)) /\
  (call w this args s).1 =
    match (behaviour (errorHandlerFn_ that) (VGuard that) [e]
                     (user (call fn (sloppyThis this) args s).2)).1 with
    | Return _ => Throw e
    | Throw e' => Throw e'
    end.
Proof.
  intros Hok Hp Hr.
  destruct (protectEntryPoint_shape that fn s0 Hok) as (id & st & Hw & _ & Hwf).
  rewrite Hp in Hw. simpl in Hw. subst w.
  destruct (protected_call_run id that _ st fn this args s Hwf)
    as (Hc & _ & Hv & Hn & _). cbv zeta in *.
  rewrite Hc, Hv, Hn, Hr. simpl reported. simpl length.
  split; [done|]. split; [lia|]. apply handled_Throw.
Qed.

(** C4, as amended.  A function [fn] that throws [e]: the wrapper throws
    too, never returns; its caller sees [e] itself when the handler returns
    normally, and the handler's own exception when the handler throws. *)
Theorem protected_call_surfaces that fn s0 w s1 this args s e :
  memo_ok s0 ->
  protectEntryPoint that fn s0 = (w, s1) ->
  (call fn (sloppyThis this) args s).1 = Throw e ->
  (call w this args s).1 =
    match (behaviour (errorHandlerFn_ that) (VGuard that) [e]
                     (user (call fn (sloppyThis this) args s).2)).1 with
    | Return _ => Throw e
    | Throw e' => Throw e'
    end.
Proof.
  intros Hok Hp Hr.
  destruct (protectEntryPoint_shape that fn s0 Hok) as (id & st & Hw & _ & Hwf).
  rewrite Hp in Hw. simpl in Hw. subst w.
  destruct (protected_call_run id that _ st fn this args s Hwf) as (Hc & _).
  cbv zeta in *. rewrite Hc, Hr. apply handled_Throw.
Qed.

(** *** The tracer bracket *)

(** C3.  A wrapper answered while the guard's flag was set: each call of it
    logs first the start of one span, under a fresh handle, then the
    application of the wrapped function (to the closure's own receiver),
    and last the stop of that span; nothing in between starts or stops a
    span with that handle.  The statement is about every call, whatever the
    wrapped function and the handler do: return, throw, or throw from the
    handler. *)
Theorem traced_call_bracketed that fn s0 w s1 this args s :
  memo_ok s0 ->
  traceFlag that s0 = true ->
  protectEntryPoint that fn s0 = (w, s1) ->
  exists label mid,
    events w this args s =
      EvStartTracer label (VNum (Z.of_nat (nextTracer s))) ::
      EvApply fn (sloppyThis this) args ::
      mid ++ [EvStopTracer (VNum (Z.of_nat (nextTracer s)))] /\
    Forall (fun ev => handle_of ev <> Some (VNum (Z.of_nat (nextTracer s))))
           mid.
Proof.
  intros Hok Hflag Hp.
  destruct (protectEntryPoint_shape that fn s0 Hok) as (id & st & Hw & _ & Hwf).
  rewrite Hp, Hflag in Hw. simpl in Hw. subst w.
  destruct (call_protected_spec id that true st fn this args s)
    as (tracer & sA & _ & HnA & -> & _ & _ & _ & He); [by auto|].
  cbv zeta in He. rewrite He.
  eexists _, (events fn (sloppyThis this) args sA ++ reported that _).
  split; [by rewrite <- app_assoc|].
  apply Forall_app. split.
  - destruct (events_facts fn (sloppyThis this) args sA) as (Hf & _).
    eapply Forall_impl; [exact Hf|]. intros ev. unfold tracer_between.
    destruct (handle_of ev) as [[]|]; try done.
    intros ? [= ->]. lia.
  - destruct (call fn (sloppyThis this) args sA).1; repeat constructor; done.
Qed.

(** C8.  Building a wrapper with the flag set captures the stack once,
    with depth 15, at that moment.  Every later call of the wrapper starts
    its span under the name ["protectedEntryPoint: "] followed by the
    marker: [##PE_STACK_START##], then the lines of the captured stack,
    cut at every newline sequence (CR LF, CR or LF) and joined by
    [##STACK_BR##], then [##PE_STACK_END##]; no line and so no marker holds
    a CR or an LF; and the call captures no stack again.  Building with the
    flag clear captures nothing, and the wrapper then makes no tracer call
    beyond those of the function it wraps. *)
Theorem tracing_wrapper_stack_marker that fn s0 this args s :
  let w := (getProtectedFunction that fn s0).1 in
  let s1 := (getProtectedFunction that fn s0).2 in
  let stack := getStacktraceSimple 15 (user s0) in
  let marker :=
    "##PE_STACK_START##" +:+
    spec_join "##STACK_BR##" (spec_lines stack) +:+
    "##PE_STACK_END##" in
  if traceFlag that s0 then
    log s1 = log s0 ++ [EvGetStacktrace 15] /\
    getStackTraceHolder_ stack = marker /\
    Forall (fun line => has_newline line = false) (spec_lines stack) /\
    has_newline marker = false /\
    (exists rest,
       events w this args s =
         EvStartTracer ("protectedEntryPoint: " +:+ marker)
                       (VNum (Z.of_nat (nextTracer s))) :: rest) /\
    count is_stack_capture (events w this args s) = 0
  else
    log s1 = log s0 /\
    count is_tracer_call (events w this args s)
    = count is_tracer_call (events fn (sloppyThis this) args s).
Proof.
  cbv zeta. rewrite getProtectedFunction_inv. simpl fst. simpl snd.
  destruct (traceFlag that s0) eqn:Hflag.
  - destruct (replaceNewlines_spec (getStacktraceSimple 15 (user s0)))
      as (Hspec & _ & Hlines).
    assert (getStackTraceHolder_ (getStacktraceSimple 15 (user s0)) =
            "##PE_STACK_START##" +:+
            spec_join "##STACK_BR##"
              (spec_lines (getStacktraceSimple 15 (user s0))) +:+
            "##PE_STACK_END##") as Hmarker.
    { unfold getStackTraceHolder_. by rewrite Hspec. }
    split; [done|]. split; [done|]. split; [done|].
    split; [rewrite <- Hmarker; apply getStackTraceHolder_no_newline|].
    split.
    + destruct (call_protected_spec (nextFn s0) that true
                  (Some (getStacktraceSimple 15 (user s0))) fn this args s)
        as (tracer & sA & _ & _ & -> & _ & _ & _ & He); [by eauto|].
      cbv zeta in He. rewrite He. simpl default. rewrite Hmarker. eauto.
    + by eapply events_facts.
  - split; [done|].
    destruct (protected_call_run (nextFn s0) that false None fn this args s)
      as (_ & _ & _ & _ & Ht); [done|].
    rewrite Ht. lia.
Qed.

(** *** Memoisation *)

(** C2.  Once [protectEntryPoint] has answered [w] for [fn], the wrapper is
    a property of [fn] itself, under the name
    [__protected_<uid>_<flag>__] made from the guard's identity and the
    flag, a name that no other guard and no other flag value gives; and
    after any further operations, if the guard's flag is what it was,
    [protectEntryPoint] answers the same [w] for [fn] and changes nothing:
    no closure is built. *)
Theorem protectEntryPoint_memoized that fn s0 w s1 s2 g b :
  protectEntryPoint that fn s0 = (w, s1) ->
  rtc step s1 s2 ->
  traceFlag that s2 = traceFlag that s0 ->
  get_prop fn (protectedFnName that (traceFlag that s0)) s1 = Some w /\
  protectedFnName that (traceFlag that s0) =
    "__protected_" +:+ pretty (uid that) +:+ "_" +:+
    (if traceFlag that s0 then "true" else "false") +:+ "__" /\
  (protectedFnName g b = protectedFnName that (traceFlag that s0) <->
   g = that /\ b = traceFlag that s0) /\
  protectEntryPoint that fn s2 = (w, s2).
Proof.
  intros Hp Hsteps Hflag.
  pose proof (protectEntryPoint_stored that fn s0) as Hst.
  rewrite Hp in Hst. simpl in Hst. split; [done|].
  split; [done|]. split.
  { split; [apply protectedFnName_inj|]. by intros [-> ->]. }
  apply steps_mono in Hsteps as [_ Hsub].
  unfold protectEntryPoint, get_prop in *. rewrite Hflag.
  by rewrite (lookup_weaken _ _ _ _ Hst Hsub).
Qed.

(** C6.  Two answers of [protectEntryPoint] for one function under
    different values of the flag are different closures; each captured
    the flag value of its own moment, makes two tracer calls per run more
    than the wrapped function when that value was set and none when it was
    clear, and runs the same whatever any guard's flag is set to later;
    both stay memoised on the function. *)
Theorem protectEntryPoint_flag_distinct
    that fn s0 w1 s1 s2 w2 s3 g newVal this args s :
  memo_ok s0 ->
  ids_below (nextFn s0) fn ->
  protectEntryPoint that fn s0 = (w1, s1) ->
  rtc step s1 s2 ->
  traceFlag that s2 <> traceFlag that s0 ->
  protectEntryPoint that fn s2 = (w2, s3) ->
  w1 <> w2 /\
  (exists id st, w1 = ProtectedFn id that (traceFlag that s0) st fn) /\
  (exists id st, w2 = ProtectedFn id that (traceFlag that s2) st fn) /\
  count is_tracer_call (events w1 this args s) =
    count is_tracer_call (events fn (sloppyThis this) args s) +
    (if traceFlag that s0 then 2 else 0) /\
  count is_tracer_call (events w2 this args s) =
    count is_tracer_call (events fn (sloppyThis this) args s) +
    (if traceFlag that s2 then 2 else 0) /\
  call w1 this args (setAddTracersToProtectedFunctions g newVal s) =
    ((call w1 this args s).1,
     setAddTracersToProtectedFunctions g newVal (call w1 this args s).2) /\
  call w2 this args (setAddTracersToProtectedFunctions g newVal s) =
    ((call w2 this args s).1,
     setAddTracersToProtectedFunctions g newVal (call w2 this args s).2) /\
  get_prop fn (protectedFnName that (traceFlag that s0)) s3 = Some w1 /\
  get_prop fn (protectedFnName that (traceFlag that s2)) s3 = Some w2.
Proof.
  intros Hok Hfn Hp1 Hsteps Hflag Hp2.
  pose proof (protectEntryPoint_memo_ok that fn s0 Hok Hfn) as Hok1.
  rewrite Hp1 in Hok1. simpl in Hok1.
  pose proof (steps_memo_ok _ _ Hsteps Hok1) as Hok2.
  destruct (protectEntryPoint_shape that fn s0 Hok) as (id1 & st1 & Hw1 & _ & Hwf1).
  destruct (protectEntryPoint_shape that fn s2 Hok2) as (id2 & st2 & Hw2 & _ & Hwf2).
  rewrite Hp1 in Hw1. rewrite Hp2 in Hw2. simpl in *. subst w1 w2.
  assert (forall w, call w this args (setAddTracersToProtectedFunctions g newVal s) =
            ((call w this args s).1,
             setAddTracersToProtectedFunctions g newVal (call w this args s).2))
    as Hset.
  { intros w. unfold setAddTracersToProtectedFunctions.
    rewrite call_set_flags. f_equal.
    destruct (call w this args s) as [c s'] eqn:Hc.
    apply call_frame in Hc as (Ha & _). simpl. by rewrite Ha. }
  split; [by intros [= ? ?]|].
  split; [by eauto|]. split; [by eauto|].
  split; [by eapply protected_call_run|].
  split; [by eapply protected_call_run|].
  split; [apply Hset|]. split; [apply Hset|].
  pose proof (protectEntryPoint_stored that fn s0) as Hst1.
  pose proof (protectEntryPoint_stored that fn s2) as Hst2.
  pose proof (protectEntryPoint_frame that fn s2) as (_ & _ & _ & _ & _ & _ & Hsub).
  rewrite Hp1 in Hst1. rewrite Hp2 in Hst2, Hsub. simpl in *.
  split; [|done].
  apply steps_mono in Hsteps as [_ Hsub12].
  unfold get_prop in *.
  eapply lookup_weaken; [|exact Hsub].
  eapply lookup_weaken; [exact Hst1|exact Hsub12].
Qed.

(** *** Protecting a protected function *)

Lemma ProtectedFn_not_self id that tracers stackTrace f :
  ProtectedFn id that tracers stackTrace f <> f.
Proof.
  revert id that tracers stackTrace.
  induction f as [n | id' that' tracers' stackTrace' f IH]; intros; [done|].
  intros [= _ _ _ _ H]. by eapply IH.
Qed.

Lemma ids_below_irrefl id that tracers stackTrace f :
  ~ ids_below id (ProtectedFn id that tracers stackTrace f).
Proof. simpl. lia. Qed.

(** A closure that was just built has no property yet: the memo that was
    written is on the function it wraps. *)
Lemma fresh_wrapper_has_no_memo that fn s k :
  memo_ok s -> ids_below (nextFn s) fn ->
  get_prop fn (protectedFnName that (traceFlag that s)) s = None ->
  get_prop (protectEntryPoint that fn s).1 k (protectEntryPoint that fn s).2
  = None.
Proof.
  intros Hok Hfn Hnone.
  destruct (protectEntryPoint_inv that fn s) as [(w & Hg & _)|(_ & ->)];
    [congruence|].
  rewrite getProtectedFunction_inv. simpl.
  assert (forall s0 : State, props s0 = props s ->
    get_prop (ProtectedFn (nextFn s) that (traceFlag that s)
                (if traceFlag that s
                 then Some (getStacktraceSimple 15 (user s)) else None) fn) k
      (set_prop fn (protectedFnName that (traceFlag that s))
         (ProtectedFn (nextFn s) that (traceFlag that s)
            (if traceFlag that s
             then Some (getStacktraceSimple 15 (user s)) else None) fn)
         (set_nextFn (S (nextFn s)) s0)) = None) as Hgen.
  { intros s0 Hp. unfold get_prop, set_prop. simpl. rewrite Hp.
    rewrite lookup_insert_ne.
    - destruct (props s !! _) as [w'|] eqn:Hl; [|done].
      apply Hok in Hl as [Hb _]. by apply ids_below_irrefl in Hb.
    - intros [= H _]. symmetry in H. by apply ProtectedFn_not_self in H. }
  destruct (traceFlag that s); by apply Hgen.
Qed.

(** C10, as amended.  [w1] is the answer of [protectEntryPoint] for [fn]
    and [w2] its answer for [w1].  Then [w2] is another closure, a closure
    of the guard around [w1]; the memo of [fn] is still [w1]; [w2] is newly
    built by the second call, unless [w1] had itself been passed before
    under this guard and flag, in which case [w2] is the memo of [w1] and
    nothing is built; and when [fn] had no memo before, [w1] has none
    after the first call, so that both closures are new.  If [fn] throws
    [e] and the handler returns normally when the inner closure gives it
    [e], a call of [w2] has the handler called twice with [e], once by each
    closure, and then throws: [e] itself when the handler returns again,
    the handler's exception otherwise. *)
Theorem nested_protection_reports_twice that fn s0 w1 s1 w2 s2 this args s :
  memo_ok s0 ->
  ids_below (nextFn s0) fn ->
  protectEntryPoint that fn s0 = (w1, s1) ->
  protectEntryPoint that w1 s1 = (w2, s2) ->
  w2 <> w1 /\
  (exists id st tr, w2 = ProtectedFn id that tr st w1) /\
  get_prop fn (protectedFnName that (traceFlag that s0)) s2 = Some w1 /\
  match get_prop w1 (protectedFnName that (traceFlag that s1)) s1 with
  | Some w => w2 = w /\ s2 = s1
  | None =>
      (exists st tr, w2 = ProtectedFn (nextFn s1) that tr st w1) /\
      nextFn s2 = S (nextFn s1)
  end /\
  (get_prop fn (protectedFnName that (traceFlag that s0)) s0 = None ->
   get_prop w1 (protectedFnName that (traceFlag that s1)) s1 = None /\
   nextFn s2 = S (S (nextFn s0))) /\
  forall e r1,
    (call fn (sloppyThis this) args s).1 = Throw e ->
    (behaviour (errorHandlerFn_ that) (VGuard that) [e]
               (user (call fn (sloppyThis this) args s).2)).1 = Return r1 ->
    visible (events w2 this args s) =
      EvApply w1 (sloppyThis this) args ::
      EvApply fn (sloppyThis this) args ::
      visible (events fn (sloppyThis this) args s) ++
      [EvHandler that (VGuard that) e; EvHandler that (VGuard that) e] /\
    (call w2 this args s).1 =
      match (behaviour (errorHandlerFn_ that) (VGuard that) [e]
               (behaviour (errorHandlerFn_ that) (VGuard that) [e]
                  (user (call fn (sloppyThis this) args s).2)).2).1 with
      | Return _ => Throw e
      | Throw e' => Throw e'
      end.
Proof.
  intros Hok Hfn Hp1 Hp2.
  pose proof (protectEntryPoint_memo_ok that fn s0 Hok Hfn) as Hok1.
  rewrite Hp1 in Hok1. simpl in Hok1.
  destruct (protectEntryPoint_shape that fn s0 Hok)
    as (id1 & st1 & Hw1 & _ & Hwf1).
  destruct (protectEntryPoint_shape that w1 s1 Hok1)
    as (id2 & st2 & Hw2 & _ & Hwf2).
  rewrite Hp1 in Hw1. rewrite Hp2 in Hw2. simpl in Hw1, Hw2.
  split; [rewrite Hw2; apply ProtectedFn_not_self|].
  split; [by eauto|].
  split.
  { pose proof (protectEntryPoint_stored that fn s0) as Hst.
    pose proof (protectEntryPoint_frame that w1 s1)
      as (_ & _ & _ & _ & _ & _ & Hsub).
    rewrite Hp1 in Hst. rewrite Hp2 in Hsub. simpl in *.
    unfold get_prop in *. by eapply lookup_weaken. }
  assert (match get_prop w1 (protectedFnName that (traceFlag that s1)) s1 with
          | Some w => w2 = w /\ s2 = s1
          | None =>
              (exists st tr, w2 = ProtectedFn (nextFn s1) that tr st w1) /\
              nextFn s2 = S (nextFn s1)
          end) as Hbuilt.
  { destruct (protectEntryPoint_inv that w1 s1) as [(w & Hg & He)|(Hg & He)];
      cbv zeta in Hg; rewrite Hg; rewrite Hp2 in He.
    - by injection He as -> ->.
    - rewrite getProtectedFunction_inv in He. simpl in He.
      injection He as -> ->. split; [by eauto|].
      by destruct (traceFlag that s1). }
  split; [exact Hbuilt|].
  split.
  { intros Hg.
    pose proof (fresh_wrapper_has_no_memo that fn s0
                  (protectedFnName that (traceFlag that s1)) Hok Hfn Hg) as Hno.
    rewrite Hp1 in Hno. simpl in Hno. split; [done|].
    rewrite Hno in Hbuilt. destruct Hbuilt as [_ ->].
    destruct (protectEntryPoint_inv that fn s0) as [(w & Hg' & _)|(_ & He1)];
      [congruence|].
    rewrite Hp1, getProtectedFunction_inv in He1. simpl in He1.
    injection He1 as _ ->. by destruct (traceFlag that s0). }
  intros e r1 Hr Hh1.
  pose proof (protected_call_run id1 that _ st1 fn (sloppyThis this) args s Hwf1)
    as H1.
  pose proof (protected_call_run id2 that _ st2 w1 this args s Hwf2) as H2.
  rewrite <- Hw1 in H1. rewrite <- Hw2 in H2. cbv zeta in H1, H2.
  rewrite sloppyThis_idem in H1.
  destruct H1 as (Hc1 & Hu1 & Hv1 & _). destruct H2 as (Hc2 & _ & Hv2 & _).
  rewrite Hr in Hc1, Hu1, Hv1.
  rewrite (proj1 (handled_Throw _ _ _)) in Hc1.
  rewrite (proj2 (handled_Throw _ _ _)) in Hu1.
  rewrite Hh1 in Hc1. 
  rewrite Hc1, Hu1 in Hc2. rewrite Hc1 in Hv2.
  rewrite (proj1 (handled_Throw _ _ _)) in Hc2.
  split; [|done]. rewrite Hv2, Hv1. simpl. by rewrite <- app_assoc.
Qed.

(** *** The timer shims *)

Lemma callSched_shim that (original : Sched) this fn rest s :
  callSched (ShimSched that original) this fn rest s =
  callSched original (if hasCall original then sloppyThis this else VUndefined)
            (protectEntryPoint that fn s).1 [hd VUndefined rest]
            (protectEntryPoint that fn s).2.
Proof.
  simpl. destruct (protectEntryPoint that fn s) as [w s1]. simpl.
  by destruct (hasCall original).
Qed.

Lemma protectWindowSetTimeout_binding that s :
  win_setTimeout (protectWindowSetTimeout that s)
  = ShimSched that (win_setTimeout s).
Proof. reflexivity. Qed.

Lemma protectWindowSetInterval_binding that s :
  win_setInterval (protectWindowSetInterval that s)
  = ShimSched that (win_setInterval s).
Proof. reflexivity. Qed.

(** C5, as amended.  After [protectWindowSetTimeout] (resp.
    [protectWindowSetInterval]) over the host's scheduler, a call of the
    new binding with receiver [this], callback [fn] and further arguments
    wraps [fn] by [protectEntryPoint] and then calls the host's scheduler
    once, with two arguments: the wrapper and the first of the further
    arguments (the delay).  When the host's scheduler has [.call], its
    receiver is the shim's own [this]: the receiver the shim was called
    with when that is an object, the global object for [undefined] and
    [null].  Without [.call] the scheduler is called directly, with no
    receiver.  Arguments after the delay are not passed on. *)
Theorem shim_forwards_callback_and_delay
    that s0 hasCallT hasCallI this fn rest s :
  win_setTimeout s0 = HostSched SetTimeout hasCallT ->
  win_setInterval s0 = HostSched SetInterval hasCallI ->
  let w := (protectEntryPoint that fn s).1 in
  let s1 := (protectEntryPoint that fn s).2 in
  get_prop fn (protectedFnName that (traceFlag that s)) s1 = Some w /\
  log (callSched (win_setTimeout (protectWindowSetTimeout that s0))
                 this fn rest s).2 =
    log s1 ++ [EvHost SetTimeout
                      (if hasCallT then sloppyThis this else VUndefined)
                      [VFn w; hd VUndefined rest]] /\
  log (callSched (win_setInterval (protectWindowSetInterval that s0))
                 this fn rest s).2 =
    log s1 ++ [EvHost SetInterval
                      (if hasCallI then sloppyThis this else VUndefined)
                      [VFn w; hd VUndefined rest]] /\
  is_object (sloppyThis this) = true /\
  (is_object this = true -> sloppyThis this = this).
Proof.
  intros HT HI. cbv zeta. split; [apply protectEntryPoint_stored|].
  rewrite protectWindowSetTimeout_binding, protectWindowSetInterval_binding.
  rewrite HT, HI, !callSched_shim. simpl.
  split; [by destruct (hostTimer _ _ _ _)|].
  split; [by destruct (hostTimer _ _ _ _)|].
  split; [apply sloppyThis_is_object|apply sloppyThis_object].
Qed.

(** C9.  What a call of the binding installed by [protectWindowSetTimeout]
    (resp. [protectWindowSetInterval]) completes with, and the state it
    leaves, are those of the call it makes of the previous binding; over
    the host's scheduler, with or without [.call], the shim returns what
    the host's scheduler returns. *)
Theorem shim_returns_original_result that s0 this fn rest s :
  let w := (protectEntryPoint that fn s).1 in
  let s1 := (protectEntryPoint that fn s).2 in
  let time := hd VUndefined rest in
  let passes (shim original : Sched) :=
    callSched shim this fn rest s =
      callSched original
                (if hasCall original then sloppyThis this else VUndefined)
                w [time] s1 /\
    match original with
    | HostSched name hc =>
        (callSched shim this fn rest s).1 =
        (hostTimer name (if hc then sloppyThis this else VUndefined)
                   [VFn w; time] (user s)).1
    | ShimSched _ _ => True
    end in
  passes (win_setTimeout (protectWindowSetTimeout that s0)) (win_setTimeout s0)
  /\
  passes (win_setInterval (protectWindowSetInterval that s0))
         (win_setInterval s0).
Proof.
  cbv zeta.
  rewrite protectWindowSetTimeout_binding, protectWindowSetInterval_binding.
  rewrite !callSched_shim.
  destruct (protectEntryPoint_frame that fn s) as (Hu & _).
  simpl in Hu.
  split; (split; [done|]).
  - destruct (win_setTimeout s0) as [name hc|]; [|done]. simpl.
    rewrite Hu. by destruct (hostTimer _ _ _ _).
  - destruct (win_setInterval s0) as [name hc|]; [|done]. simpl.
    rewrite Hu. by destruct (hostTimer _ _ _ _).
Qed.

End Properties.

(** ** Further facts about the stack marker *)

Lemma string_app_nil_r (s : string) : s +:+ EmptyString = s.
Proof.
  induction s as [|c s IH]; [reflexivity|].
  rewrite string_app_cons. by rewrite IH.
Qed.

Lemma ends_with_CR_cons (c x : ascii) (s : string) :
  ends_with_CR (String c (String x s)) = ends_with_CR (String x s).
Proof. reflexivity. Qed.

Lemma ends_with_CR_after_LF (s : string) :
  ends_with_CR (String LF s) = ends_with_CR s.
Proof. by destruct s. Qed.

(** X12.  The replacement works piece by piece: a text cut in two, unless
    the cut falls between a CR and the LF that follows it, is replaced by
    replacing the two pieces. *)
Theorem replaceNewlines_app (a b : string) :
  ends_with_CR a && starts_with_LF b = false ->
  replaceNewlines (a +:+ b) = replaceNewlines a +:+ replaceNewlines b.
Proof.
  revert b.
  cut ((forall b, ends_with_CR a && starts_with_LF b = false ->
          replaceNewlines (a +:+ b) = replaceNewlines a +:+ replaceNewlines b) /\
       (forall c b, ends_with_CR (String c a) && starts_with_LF b = false ->
          replaceNewlines (String c a +:+ b)
          = replaceNewlines (String c a) +:+ replaceNewlines b)).
  { by intros [? _]. }
  induction a as [|x a [IH1 IH2]].
  - split; [done|]. intros c b Hok. rewrite string_app_cons, string_app_nil.
    simpl in Hok.
    destruct (Ascii.eqb c CR) eqn:H1.
    + apply Ascii.eqb_eq in H1 as ->. simpl in Hok.
      destruct b as [|c' b]; [reflexivity|]. simpl in Hok.
      rewrite replaceNewlines_CR_cons, Hok. reflexivity.
    + destruct (Ascii.eqb c LF) eqn:H2.
      * apply Ascii.eqb_eq in H2 as ->. reflexivity.
      * rewrite !replaceNewlines_cons_other by done. reflexivity.
  - split; [apply IH2|]. intros c b Hok.
    rewrite ends_with_CR_cons in Hok. rewrite !string_app_cons.
    destruct (Ascii.eqb c CR) eqn:H1.
    + apply Ascii.eqb_eq in H1 as ->. rewrite !replaceNewlines_CR_cons.
      destruct (Ascii.eqb x LF) eqn:H2.
      * apply Ascii.eqb_eq in H2 as ->. rewrite ends_with_CR_after_LF in Hok.
        rewrite IH1 by done. by rewrite string_app_assoc.
      * rewrite <- string_app_cons, IH2 by done. by rewrite string_app_assoc.
    + destruct (Ascii.eqb c LF) eqn:H2.
      * apply Ascii.eqb_eq in H2 as ->. rewrite !replaceNewlines_LF_cons.
        rewrite <- string_app_cons, IH2 by done. by rewrite string_app_assoc.
      * rewrite !(replaceNewlines_cons_other c) by done.
        rewrite <- string_app_cons, IH2 by done. by rewrite string_app_cons.
Qed.

(** X13.  After a line without newline, a CR LF pair is one break, not
    two, and a lone LF is one break: each becomes one [##STACK_BR##]. *)
Theorem replaceNewlines_line_break (a b : string) :
  has_newline a = false ->
  replaceNewlines (a +:+ String CR (String LF b))
    = a +:+ STACK_BR +:+ replaceNewlines b /\
  replaceNewlines (a +:+ String LF b)
    = a +:+ STACK_BR +:+ replaceNewlines b.
Proof.
  intros Ha. split.
  - by apply replaceNewlines_line_CRLF.
  - by apply replaceNewlines_line_LF.
Qed.

(** X11.  A stack without CR and LF, the empty one included, stands as it
    is between the two delimiters. *)
Theorem getStackTraceHolder_verbatim (stackTrace : string) :
  has_newline stackTrace = false ->
  getStackTraceHolder_ stackTrace
  = "##PE_STACK_START##" +:+ stackTrace +:+ "##PE_STACK_END##".
Proof.
  intros H. unfold getStackTraceHolder_. by rewrite replaceNewlines_id.
Qed.

(** ** Further properties of the operations *)

Section Further.

Context {E : Env}.

Implicit Types (s : State) (f fn w : Fn) (that g : Guard) (this e v : Value)
  (args : list Value) (c : Completion).

(** *** The flag and its setter *)

Lemma protectEntryPoint_again that fn s :
  protectEntryPoint that fn (protectEntryPoint that fn s).2
  = protectEntryPoint that fn s.
Proof.
  pose proof (protectEntryPoint_stored that fn s) as Hst.
  destruct (protectEntryPoint_frame that fn s) as (_ & Ha & _).
  destruct (protectEntryPoint that fn s) as [w s1] eqn:Hp. simpl in *.
  unfold protectEntryPoint at 1. unfold traceFlag in *. rewrite Ha.
  by rewrite Hst.
Qed.

(** X1.  [setAddTracersToProtectedFunctions] sets the flag of its own
    guard and of no other; it touches neither the memo, the log nor the
    application state; setting the same value again changes nothing; and
    the next answer of [protectEntryPoint] for this guard is a closure that
    captured the value set. *)
Theorem setAddTracers_sets_one_flag that g newVal fn s :
  g <> that ->
  memo_ok s ->
  let s' := setAddTracersToProtectedFunctions that newVal s in
  traceFlag that s' = newVal /\
  traceFlag g s' = traceFlag g s /\
  props s' = props s /\ log s' = log s /\ user s' = user s /\
  setAddTracersToProtectedFunctions that newVal s' = s' /\
  exists id st,
    (protectEntryPoint that fn s').1 = ProtectedFn id that newVal st fn.
Proof.
  intros Hne Hok. cbv zeta.
  assert (traceFlag that (setAddTracersToProtectedFunctions that newVal s)
          = newVal) as Hflag.
  { unfold traceFlag. simpl. by rewrite lookup_insert_eq. }
  split; [done|]. split.
  { unfold traceFlag. simpl. rewrite lookup_insert_ne; [done|].
    intros Hu. apply Hne. destruct g, that. simpl in Hu. by subst. }
  split; [done|]. split; [done|]. split; [done|]. split.
  { unfold setAddTracersToProtectedFunctions, set_flags. simpl.
    by rewrite insert_insert_eq. }
  destruct (protectEntryPoint_shape that fn
              (setAddTracersToProtectedFunctions that newVal s))
    as (id & st & Hw & _); [done|].
  rewrite Hflag in Hw. eauto.
Qed.

(** X2.  A guard whose setter was never called has the prototype's flag,
    [false]: protecting a function under it captures no stack and logs
    nothing, and the wrapper adds no tracer call to those of the function
    it wraps. *)
Theorem unset_flag_means_no_tracing that fn s this args s' :
  addTracersToProtectedFunctions_ s !! uid that = None ->
  memo_ok s ->
  traceFlag that s = false /\
  (exists id st,
     (protectEntryPoint that fn s).1 = ProtectedFn id that false st fn) /\
  log (protectEntryPoint that fn s).2 = log s /\
  count is_tracer_call (events (protectEntryPoint that fn s).1 this args s')
  = count is_tracer_call (events fn (sloppyThis this) args s').
Proof.
  intros Hnone Hok.
  assert (traceFlag that s = false) as Hflag.
  { unfold traceFlag. by rewrite Hnone. }
  split; [done|].
  destruct (protectEntryPoint_shape that fn s Hok) as (id & st & Hw & _ & Hwf).
  rewrite Hflag in Hw, Hwf. split; [by eauto|]. split.
  - destruct (protectEntryPoint_inv that fn s) as [(w & _ & ->)|(_ & ->)];
      [done|].
    rewrite getProtectedFunction_inv, Hflag. done.
  - rewrite Hw.
    destruct (protected_call_run id that false st fn this args s' Hwf)
      as (_ & _ & _ & _ & Ht).
    rewrite Ht. lia.
Qed.

(** *** Whose wrapper it is *)


(** X14.  [wrap] and [protectEntryPoint] answer from the same memo: what
    either answers for a function, the other answers next, without building
    anything. *)
Theorem wrap_shares_memo that fn s :
  protectEntryPoint that fn (wrap that fn s).2 = wrap that fn s /\
  wrap that fn (protectEntryPoint that fn s).2 = protectEntryPoint that fn s.
Proof. unfold wrap. split; apply protectEntryPoint_again. Qed.

(** X6.  From a page on which no function carries a memo, whatever
    operations are run, every memo found on a function [fn] is a closure
    around [fn] itself, built by the guard and with the flag value that its
    name is made from, with a stack captured when that value was set. *)
Theorem memo_ok_reachable s0 s :
  props s0 = ∅ -> rtc step s0 s -> memo_ok s.
Proof.
  intros Hempty Hsteps. eapply steps_memo_ok; [exact Hsteps|].
  by apply memo_ok_empty.
Qed.

(** *** Spans are nested *)

Lemma spans_app (opened : list Value) (l1 l2 : list Event) :
  spans opened (l1 ++ l2) =
  match spans opened l1 with
  | Some opened' => spans opened' l2
  | None => None
  end.
Proof.
  revert opened. induction l1 as [|ev l1 IH]; intros opened; [done|].
  destruct ev; simpl; try apply IH.
  destruct opened as [|h' rest]; [done|]. by case_decide.
Qed.

Lemma spans_reported (opened : list Value) that c :
  spans opened (reported that c) = Some opened.
Proof. by destruct c. Qed.

(** X7.  In the log of any call, of any tower of closures and on every
    way out, the spans are well nested: each stop closes the span started
    last and not yet stopped, and every span the call started is stopped
    when it ends. *)
Theorem call_spans_nested f this args s (opened : list Value) :
  spans opened (events f this args s) = Some opened.
Proof.
  revert this s opened.
  induction f as [n | id that tracers stackTrace fn IH]; intros this s opened.
  - by rewrite events_PlainFn.
  - destruct (decide (tracers = true -> is_Some stackTrace)) as [Hwf|Hwf].
    + destruct (call_protected_spec id that _ _ fn this args s Hwf)
        as (tracer & sA & _ & _ & _ & _ & _ & _ & He).
      cbv zeta in He. rewrite He.
      destruct tracers; simpl.
      * rewrite spans_app, IH, spans_app, spans_reported. simpl.
        by rewrite decide_True.
      * by rewrite spans_app, IH, spans_app, spans_reported.
    + destruct tracers; [|by destruct Hwf].
      destruct stackTrace as [st|]; [by destruct Hwf; eauto|].
      by destruct (events_malformed id that fn this args s) as (_ & _ & ->).
Qed.

(** *** A tower of closures is transparent to a normal return *)

Lemma handled_Return_iff that c (u : U) v :
  (handled that c u).1 = Return v <-> c = Return v.
Proof.
  destruct c as [v'|e]; simpl; [done|].
  destruct (behaviour _ _ _ _) as [[r|e'] u']; simpl; split; done.
Qed.

(** X8.  Through any number of protections, by any guards, with or
    without tracing, a call returns [v] exactly when the application's
    function at the bottom, given the receiver that reaches it and the same
    arguments, returns [v]; and it then leaves the application state that
    function leaves.  The receiver that reaches it is the one passed when
    there is no closure in between, and otherwise the closures' own
    receiver: the one passed if it is an object, the global object for
    [undefined] and [null], the wrapper object for a primitive. *)
Theorem tower_returns_iff f this args s v :
  wf_fn f ->
  let received := match f with
                  | PlainFn _ => this
                  | ProtectedFn _ _ _ _ _ => sloppyThis this
                  end in
  ((call f this args s).1 = Return v <->
   (behaviour (innermost f) received args (user s)).1 = Return v) /\
  ((call f this args s).1 = Return v ->
   user (call f this args s).2 =
   (behaviour (innermost f) received args (user s)).2) /\
  (is_object this = true -> received = this).
Proof.
  revert this.
  induction f as [n | id that tracers stackTrace fn IH]; intros this Hwf.
  - simpl. by destruct (behaviour _ _ _ _).
  - destruct Hwf as [Hst Hwf].
    destruct (IH (sloppyThis this) Hwf) as (IHc & IHu & _). cbv zeta in *.
    assert (match fn with
            | PlainFn _ => sloppyThis this
            | ProtectedFn _ _ _ _ _ => sloppyThis (sloppyThis this)
            end = sloppyThis this) as Hrec.
    { destruct fn; [done|apply sloppyThis_idem]. }
    rewrite Hrec in IHc, IHu.
    destruct (protected_call_run id that _ _ fn this args s Hst)
      as (Hc & Hu & _). cbv zeta in Hc, Hu. simpl innermost.
    rewrite Hc, Hu, handled_Return_iff. split; [done|].
    split; [|apply sloppyThis_object].
    intros Hr. rewrite Hr. simpl. by apply IHu.
Qed.


(** X3.  A call of a tower of closures tells the handlers at most once
    per closure: the log of the call holds no more handler calls than the
    tower has closures. *)
Theorem tower_handler_calls_bounded f this args s :
  wf_fn f ->
  count is_handler_call (events f this args s) <= layers f.
Proof.
  revert this.
  induction f as [n | id that tracers stackTrace fn IH]; intros this Hwf.
  - by rewrite events_PlainFn.
  - destruct Hwf as [Hst Hwf].
    destruct (protected_call_run id that _ _ fn this args s Hst)
      as (_ & _ & _ & Hh & _).
    rewrite Hh. specialize (IH (sloppyThis this) Hwf). simpl.
    destruct ((call fn (sloppyThis this) args s).1); simpl; lia.
Qed.

(** X16.  When the wrapped function throws [e], the handler runs on the
    application state that the function left behind, with the guard as
    receiver and [e] as its one argument, and the state the wrapper leaves
    is the one the handler leaves. *)
Theorem handler_runs_on_state_left that fn s0 w s1 this args s e :
  memo_ok s0 ->
  protectEntryPoint that fn s0 = (w, s1) ->
  (call fn (sloppyThis this) args s).1 = Throw e ->
  user (call w this args s).2 =
    (behaviour (errorHandlerFn_ that) (VGuard that) [e]
               (user (call fn (sloppyThis this) args s).2)).2 /\
  last (visible (events w this args s)) = Some (EvHandler that (VGuard that) e).
Proof.
  intros Hok Hp Hr.
  destruct (protectEntryPoint_shape that fn s0 Hok) as (id & st & Hw & _ & Hwf).
  rewrite Hp in Hw. simpl in Hw. subst w.
  destruct (protected_call_run id that _ st fn this args s Hwf)
    as (_ & Hu & Hv & _). cbv zeta in Hu, Hv.
  rewrite Hu, Hv, Hr. split; [apply handled_Throw|].
  simpl reported. rewrite app_comm_cons. by rewrite last_snoc.
Qed.

(** *** The shims, installed twice and called twice *)

(** X9.  Installing the protection twice stacks the shims: the binding
    installed last wraps the callback first and hands its wrapper to the
    binding installed before, which wraps that wrapper again; the host's
    scheduler gets a closure of the first guard around a closure of the
    second around the callback, and the delay. *)
Theorem double_install_wraps_twice g1 g2 s0 hasCallT hasCallI this fn rest s :
  win_setTimeout s0 = HostSched SetTimeout hasCallT ->
  win_setInterval s0 = HostSched SetInterval hasCallI ->
  memo_ok s ->
  ids_below (nextFn s) fn ->
  let w1 := (protectEntryPoint g2 fn s).1 in
  let s1 := (protectEntryPoint g2 fn s).2 in
  let w2 := (protectEntryPoint g1 w1 s1).1 in
  let s2 := (protectEntryPoint g1 w1 s1).2 in
  (exists id1 st1 tr1 id2 st2 tr2,
     w2 = ProtectedFn id2 g1 tr2 st2 (ProtectedFn id1 g2 tr1 st1 fn)) /\
  log (callSched
         (win_setTimeout
            (protectWindowSetTimeout g2 (protectWindowSetTimeout g1 s0)))
         this fn rest s).2 =
    log s2 ++ [EvHost SetTimeout
                      (if hasCallT then sloppyThis this else VUndefined)
                      [VFn w2; hd VUndefined rest]] /\
  log (callSched
         (win_setInterval
            (protectWindowSetInterval g2 (protectWindowSetInterval g1 s0)))
         this fn rest s).2 =
    log s2 ++ [EvHost SetInterval
                      (if hasCallI then sloppyThis this else VUndefined)
                      [VFn w2; hd VUndefined rest]].
Proof.
  intros HT HI Hok Hfn. cbv zeta.
  pose proof (protectEntryPoint_memo_ok g2 fn s Hok Hfn) as Hok1.
  destruct (protectEntryPoint_shape g2 fn s Hok) as (id1 & st1 & Hw1 & _).
  destruct (protectEntryPoint_shape g1 (protectEntryPoint g2 fn s).1 _ Hok1)
    as (id2 & st2 & Hw2 & _).
  split.
  { rewrite Hw2, Hw1. by eauto 10. }
  rewrite !protectWindowSetTimeout_binding, !protectWindowSetInterval_binding.
  rewrite HT, HI. rewrite !callSched_shim. simpl.
  rewrite sloppyThis_idem.
  split; by destruct (hostTimer _ _ _ _).
Qed.

(** X10.  Scheduling through the shim leaves the callback's wrapper as its
    memo: the shim's next call for the same callback, and
    [protectEntryPoint] itself, find that same wrapper and build nothing. *)
Theorem shim_reuses_wrapper that (original : Sched) this fn rest s :
  let s' := (callSched (ShimSched that original) this fn rest s).2 in
  protectEntryPoint that fn s' = ((protectEntryPoint that fn s).1, s').
Proof.
  cbv zeta. rewrite callSched_shim.
  pose proof (protectEntryPoint_stored that fn s) as Hst.
  destruct (protectEntryPoint_frame that fn s) as (_ & Ha & _).
  destruct (protectEntryPoint that fn s) as [w s1]. simpl in *.
  destruct (callSched_mono original
              (if hasCall original then sloppyThis this else VUndefined)
              w [hd VUndefined rest] s1) as (Ha' & _ & Hsub).
  simpl in Ha', Hsub.
  unfold protectEntryPoint, get_prop, traceFlag in *.
  rewrite Ha', Ha.
  by rewrite (lookup_weaken _ _ _ _ Hst Hsub).
Qed.

End Further.

(** ** Runs in the concrete environment *)

Lemma demo_init_memo_ok (hasCall : bool) : memo_ok (demo_init hasCall).
Proof. by apply memo_ok_empty. Qed.

Lemma demo_traced_memo_ok (g : Guard) : memo_ok (demo_traced g).
Proof. by apply memo_ok_empty. Qed.

Lemma demo_later_steps (s : @State demo_env) : rtc step s (demo_later s).
Proof.
  unfold demo_later.
  eapply rtc_l; [apply (step_setAddTracers demo_g1 true)|].
  eapply rtc_l; [apply (step_protectEntryPoint demo_g1 (PlainFn 1)); exact I|].
  eapply rtc_l; [apply (step_setAddTracers demo_g1 false)|].
  apply rtc_refl.
Qed.

(** The three ways out of a traced wrapper: the function returns, the
    function throws, the handler throws. *)
Example traced_return_run :
  let s := demo_protected demo_g1 (PlainFn 0) (demo_traced demo_g1) in
  let w := demo_protect demo_g1 (PlainFn 0) (demo_traced demo_g1) in
  (call w VWindow [VNum 1] s).1 = Return (VNum 7) /\
  visible (events w VWindow [VNum 1] s) = [EvApply (PlainFn 0) VWindow [VNum 1]] /\
  last (events w VWindow [VNum 1] s) = Some (EvStopTracer (VNum 0)).
Proof. vm_compute. done. Qed.

Example traced_throw_run :
  let s := demo_protected demo_g1 (PlainFn 1) (demo_traced demo_g1) in
  let w := demo_protect demo_g1 (PlainFn 1) (demo_traced demo_g1) in
  (call w VWindow [] s).1 = Throw (VStr "x") /\
  user (call w VWindow [] s).2 = [VStr "x"] /\
  visible (events w VWindow [] s) =
    [EvApply (PlainFn 1) VWindow [];
     EvHandler demo_g1 (VGuard demo_g1) (VStr "x")] /\
  last (events w VWindow [] s) = Some (EvStopTracer (VNum 0)).
Proof. vm_compute. done. Qed.

Example traced_handler_throw_run :
  let s := demo_protected demo_g2 (PlainFn 1) (demo_traced demo_g2) in
  let w := demo_protect demo_g2 (PlainFn 1) (demo_traced demo_g2) in
  (call w VWindow [] s).1 = Throw (VStr "boom") /\
  last (events w VWindow [] s) = Some (EvStopTracer (VNum 0)).
Proof. vm_compute. done. Qed.

Example getStackTraceHolder_demo :
  getStackTraceHolder_ demo_stack =
  "##PE_STACK_START##at f##STACK_BR##at g##STACK_BR##at h##PE_STACK_END##".
Proof. reflexivity. Qed.

Example spec_lines_demo :
  spec_lines demo_stack = ["at f"; "at g"; "at h"] /\
  spec_join "##STACK_BR##" (spec_lines demo_stack)
  = "at f##STACK_BR##at g##STACK_BR##at h" /\
  spec_lines (String CR (String CR (String LF EmptyString)))
  = [EmptyString; EmptyString; EmptyString].
Proof. vm_compute. done. Qed.

Example protectedFnName_demo :
  protectedFnName demo_g1 true = "__protected_1_true__" /\
  protectedFnName demo_g2 false = "__protected_2_false__".
Proof. vm_compute. done. Qed.

(** *** The theorems at concrete inputs *)



(** C1, as amended, at function 1 under guard 1, whose handler returns. *)
Lemma protected_call_reports_and_rethrows_witness :
  let s := demo_protected demo_g1 (PlainFn 1) (demo_init true) in
  let w := demo_protect demo_g1 (PlainFn 1) (demo_init true) in
  visible (events w VWindow [] s) =
    EvApply (PlainFn 1) (sloppyThis VWindow) [] ::
    visible (events (PlainFn 1) (sloppyThis VWindow) [] s) ++
    [EvHandler demo_g1 (VGuard demo_g1) (VStr "x")] /\
  count is_handler_call (events w VWindow [] s) =
    S (count is_handler_call (events (PlainFn 1) (sloppyThis VWindow) [] s)) /\
  (call w VWindow [] s).1 =
    match (@behaviour demo_env (@errorHandlerFn_ demo_env demo_g1)
             (VGuard demo_g1) [VStr "x"]
             (user (call (PlainFn 1) (sloppyThis VWindow) [] s).2)).1 with
    | Return _ => Throw (VStr "x")
    | Throw e' => Throw e'
    end.
Proof.
  apply (protected_call_reports_and_rethrows (E:=demo_env) demo_g1 (PlainFn 1)
           (demo_init true) _
           (demo_protected demo_g1 (PlainFn 1) (demo_init true))).
  - apply demo_init_memo_ok.
  - reflexivity.
  - reflexivity.
Defined.

(** C1 as stated fails under guard 2, whose handler throws: function 1
    throws ["x"], the handler is called with ["x"], and the wrapper's
    caller gets ["boom"]. *)
Lemma throwing_handler_masks_exception :
  let s := demo_protected demo_g2 (PlainFn 1) (demo_init true) in
  let w := demo_protect demo_g2 (PlainFn 1) (demo_init true) in
  (call (PlainFn 1) VWindow [] s).1 = Throw (VStr "x") /\
  events w VWindow [] s =
    [EvApply (PlainFn 1) VWindow [];
     EvHandler demo_g2 (VGuard demo_g2) (VStr "x")] /\
  (call w VWindow [] s).1 = Throw (VStr "boom") /\
  (call w VWindow [] s).1 <> Throw (VStr "x").
Proof. vm_compute. repeat split; done. Qed.

(** C4, as amended, under guard 2 with tracing on. *)
Lemma protected_call_surfaces_witness :
  let s := demo_protected demo_g2 (PlainFn 1) (demo_traced demo_g2) in
  let w := demo_protect demo_g2 (PlainFn 1) (demo_traced demo_g2) in
  (call w VWindow [VNum 1] s).1 =
    match (@behaviour demo_env (@errorHandlerFn_ demo_env demo_g2)
             (VGuard demo_g2) [VStr "x"]
             (user (call (PlainFn 1) (sloppyThis VWindow) [VNum 1] s).2)).1 with
    | Return _ => Throw (VStr "x")
    | Throw e' => Throw e'
    end.
Proof.
  apply (protected_call_surfaces (E:=demo_env) demo_g2 (PlainFn 1)
           (demo_traced demo_g2) _
           (demo_protected demo_g2 (PlainFn 1) (demo_traced demo_g2))).
  - apply demo_traced_memo_ok.
  - reflexivity.
  - reflexivity.
Defined.

(** C4 as stated fails when the handler throws: with tracing on, under
    guard 2, function 1 throws ["x"] and the caller of the wrapper sees the
    handler's ["boom"]; the span is still stopped. *)
Lemma caller_sees_handler_exception :
  let s := demo_protected demo_g2 (PlainFn 1) (demo_traced demo_g2) in
  let w := demo_protect demo_g2 (PlainFn 1) (demo_traced demo_g2) in
  (call (PlainFn 1) VWindow [VNum 1] s).1 = Throw (VStr "x") /\
  (call w VWindow [VNum 1] s).1 = Throw (VStr "boom") /\
  VStr "boom" <> VStr "x" /\
  last (events w VWindow [VNum 1] s) = Some (EvStopTracer (VNum 0)).
Proof. vm_compute. repeat split; done. Qed.

(** C3 under guard 2 with tracing on: function 1 throws and the handler
    throws. *)
Lemma traced_call_bracketed_witness :
  let s := demo_protected demo_g2 (PlainFn 1) (demo_traced demo_g2) in
  let w := demo_protect demo_g2 (PlainFn 1) (demo_traced demo_g2) in
  traceFlag demo_g2 (demo_traced demo_g2) = true /\
  exists label mid,
    events w VWindow [] s =
      EvStartTracer label (VNum (Z.of_nat (nextTracer s))) ::
      EvApply (PlainFn 1) (sloppyThis VWindow) [] ::
      mid ++ [EvStopTracer (VNum (Z.of_nat (nextTracer s)))] /\
    Forall (fun ev => handle_of ev <> Some (VNum (Z.of_nat (nextTracer s))))
           mid.
Proof.
  split; [reflexivity|].
  apply (traced_call_bracketed (E:=demo_env) demo_g2 (PlainFn 1)
           (demo_traced demo_g2) _
           (demo_protected demo_g2 (PlainFn 1) (demo_traced demo_g2))).
  - apply demo_traced_memo_ok.
  - reflexivity.
  - reflexivity.
Defined.

(** C2: the wrapper of function 0 is found again after the flag was set,
    another function protected and the flag cleared; the name it is kept
    under is not the name guard 2 makes. *)
Lemma protectEntryPoint_memoized_witness :
  let s1 := demo_protected demo_g1 (PlainFn 0) (demo_init true) in
  let w := demo_protect demo_g1 (PlainFn 0) (demo_init true) in
  traceFlag demo_g1 (demo_later s1) = traceFlag demo_g1 (demo_init true) /\
  (get_prop (PlainFn 0)
     (protectedFnName demo_g1 (traceFlag demo_g1 (demo_init true))) s1 = Some w /\
   protectedFnName demo_g1 (traceFlag demo_g1 (demo_init true)) =
     "__protected_" +:+ pretty (uid demo_g1) +:+ "_" +:+
     (if traceFlag demo_g1 (demo_init true) then "true" else "false") +:+ "__" /\
   (protectedFnName demo_g2 false =
      protectedFnName demo_g1 (traceFlag demo_g1 (demo_init true)) <->
    demo_g2 = demo_g1 /\ false = traceFlag demo_g1 (demo_init true)) /\
   protectEntryPoint demo_g1 (PlainFn 0) (demo_later s1) = (w, demo_later s1)).
Proof.
  split; [reflexivity|].
  apply (protectEntryPoint_memoized (E:=demo_env) demo_g1 (PlainFn 0)
           (demo_init true)).
  - reflexivity.
  - apply demo_later_steps.
  - reflexivity.
Defined.

(** C6: function 1 protected by guard 1 with the flag clear, then, after
    the flag was set, protected again. *)
Lemma protectEntryPoint_flag_distinct_witness :
  let s0 := demo_init true in
  let s1 := demo_protected demo_g1 (PlainFn 1) s0 in
  let s2 := setAddTracersToProtectedFunctions demo_g1 true s1 in
  let w1 := demo_protect demo_g1 (PlainFn 1) s0 in
  let w2 := demo_protect demo_g1 (PlainFn 1) s2 in
  traceFlag demo_g1 s2 <> traceFlag demo_g1 s0 /\
  w1 <> w2 /\
  count is_tracer_call (events w1 VWindow [] s2) = 0 /\
  count is_tracer_call (events w2 VWindow [] s1) = 2.
Proof.
  split; [discriminate|].
  destruct (protectEntryPoint_flag_distinct (E:=demo_env) demo_g1 (PlainFn 1)
              (demo_init true)
              (demo_protect demo_g1 (PlainFn 1) (demo_init true))
              (demo_protected demo_g1 (PlainFn 1) (demo_init true))
              (setAddTracersToProtectedFunctions demo_g1 true
                 (demo_protected demo_g1 (PlainFn 1) (demo_init true)))
              (demo_protect demo_g1 (PlainFn 1)
                 (setAddTracersToProtectedFunctions demo_g1 true
                    (demo_protected demo_g1 (PlainFn 1) (demo_init true))))
              (demo_protected demo_g1 (PlainFn 1)
                   (setAddTracersToProtectedFunctions demo_g1 true
                      (demo_protected demo_g1 (PlainFn 1) (demo_init true))))
              demo_g1 false VWindow []
              (demo_protected demo_g1 (PlainFn 1) (demo_init true)))
    as (Hne & _).
  - apply demo_init_memo_ok.
  - exact I.
  - reflexivity.
  - eapply rtc_l; [apply (step_setAddTracers demo_g1 true)|apply rtc_refl].
  - discriminate.
  - reflexivity.
  - split; [exact Hne|]. split; reflexivity.
Defined.

(** C10, as amended, under guard 1, whose handler returns. *)
Lemma nested_protection_reports_twice_witness :
  let s0 := demo_init true in
  let w1 := demo_protect demo_g1 (PlainFn 1) s0 in
  let s1 := demo_protected demo_g1 (PlainFn 1) s0 in
  let w2 := demo_protect demo_g1 w1 s1 in
  let s2 := demo_protected demo_g1 w1 s1 in
  w2 <> w1 /\
  (exists id st tr, w2 = ProtectedFn id demo_g1 tr st w1) /\
  get_prop (PlainFn 1) (protectedFnName demo_g1 (traceFlag demo_g1 s0)) s2
    = Some w1 /\
  nextFn s2 = S (S (nextFn s0)) /\
  visible (events w2 VWindow [] s2) =
    [EvApply w1 VWindow []; EvApply (PlainFn 1) VWindow [];
     EvHandler demo_g1 (VGuard demo_g1) (VStr "x");
     EvHandler demo_g1 (VGuard demo_g1) (VStr "x")] /\
  (call w2 VWindow [] s2).1 = Throw (VStr "x").
Proof.
  destruct (nested_protection_reports_twice (E:=demo_env) demo_g1 (PlainFn 1)
              (demo_init true)
              (demo_protect demo_g1 (PlainFn 1) (demo_init true))
              (demo_protected demo_g1 (PlainFn 1) (demo_init true))
              (demo_protect demo_g1
                 (demo_protect demo_g1 (PlainFn 1) (demo_init true))
                 (demo_protected demo_g1 (PlainFn 1) (demo_init true)))
              (demo_protected demo_g1
                 (demo_protect demo_g1 (PlainFn 1) (demo_init true))
                 (demo_protected demo_g1 (PlainFn 1) (demo_init true)))
              VWindow []
              (demo_protected demo_g1
                 (demo_protect demo_g1 (PlainFn 1) (demo_init true))
                 (demo_protected demo_g1 (PlainFn 1) (demo_init true))))
    as (Hne & Hshape & Hmemo & _ & Hfresh & Hrun).
  - apply demo_init_memo_ok.
  - exact I.
  - reflexivity.
  - reflexivity.
  - destruct (Hrun (VStr "x") VUndefined) as [Hv Hc]; [reflexivity..|].
    destruct Hfresh as [_ Hn]; [reflexivity|].
    split; [exact Hne|]. split; [exact Hshape|]. split; [exact Hmemo|].
    split; [exact Hn|]. split; [exact Hv|exact Hc].
Defined.

(** C10 as stated fails twice.  Under guard 2, whose handler throws,
    function 1 throws ["x"]; the inner closure calls the handler with
    ["x"], the outer one with the handler's ["boom"], and ["boom"] reaches
    the caller.  And a wrapper that was passed back before is not wrapped
    anew: the second evaluation of [g.protectEntryPoint(g.protectEntryPoint(f))]
    answers the closure of the first and allocates nothing. *)
Lemma nested_handler_sees_its_own_exception :
  let s0 := demo_init true in
  let w1 := demo_protect demo_g2 (PlainFn 1) s0 in
  let s1 := demo_protected demo_g2 (PlainFn 1) s0 in
  let w2 := demo_protect demo_g2 w1 s1 in
  let s2 := demo_protected demo_g2 w1 s1 in
  ((call (PlainFn 1) VWindow [] s2).1 = Throw (VStr "x") /\
   events w2 VWindow [] s2 =
     [EvApply w1 VWindow []; EvApply (PlainFn 1) VWindow [];
      EvHandler demo_g2 (VGuard demo_g2) (VStr "x");
      EvHandler demo_g2 (VGuard demo_g2) (VStr "boom")] /\
   events w2 VWindow [] s2 <>
     [EvApply w1 VWindow []; EvApply (PlainFn 1) VWindow [];
      EvHandler demo_g2 (VGuard demo_g2) (VStr "x");
      EvHandler demo_g2 (VGuard demo_g2) (VStr "x")] /\
   (call w2 VWindow [] s2).1 = Throw (VStr "boom") /\
   (call w2 VWindow [] s2).1 <> Throw (VStr "x")) /\
  (protectEntryPoint demo_g2 (PlainFn 1) s2 = (w1, s2) /\
   protectEntryPoint demo_g2 w1 s2 = (w2, s2) /\
   nextFn (protectEntryPoint demo_g2 w1 s2).2 = nextFn s2).
Proof. vm_compute. repeat split; done. Qed.

(** C5, as amended, on a page whose [setTimeout] has [.call] and whose
    [setInterval] has not, called with no receiver. *)
Lemma shim_forwards_callback_and_delay_witness :
  let s := demo_mixed in
  let rest := [VNum 10; VStr "extra"] in
  let w := (protectEntryPoint demo_g1 (PlainFn 0) s).1 in
  let s1 := (protectEntryPoint demo_g1 (PlainFn 0) s).2 in
  get_prop (PlainFn 0) (protectedFnName demo_g1 (traceFlag demo_g1 s)) s1
    = Some w /\
  log (callSched (win_setTimeout (protectWindowSetTimeout demo_g1 demo_mixed))
                 VUndefined (PlainFn 0) rest s).2 =
    log s1 ++ [EvHost SetTimeout (if true then sloppyThis VUndefined else VUndefined)
                      [VFn w; hd VUndefined rest]] /\
  log (callSched (win_setInterval (protectWindowSetInterval demo_g1 demo_mixed))
                 VUndefined (PlainFn 0) rest s).2 =
    log s1 ++ [EvHost SetInterval (if false then sloppyThis VUndefined else VUndefined)
                      [VFn w; hd VUndefined rest]] /\
  is_object (sloppyThis VUndefined) = true /\
  (is_object VUndefined = true -> sloppyThis VUndefined = VUndefined).
Proof.
  apply (shim_forwards_callback_and_delay (E:=demo_env) demo_g1
           demo_mixed true false VUndefined (PlainFn 0)
           [VNum 10; VStr "extra"] demo_mixed).
  - reflexivity.
  - reflexivity.
Defined.

(** C5 as stated fails: called as [setTimeout(fn, 10, "extra")], the shim
    hands the host's scheduler the wrapper and 10 and nothing more; on a
    page whose timers have no [.call], it hands it no receiver either; and
    called with no receiver, it hands on the global object. *)
Lemma shim_drops_extra_arguments :
  let w := demo_protect demo_g1 (PlainFn 0) (demo_init true) in
  let rest := [VNum 10; VStr "extra"] in
  log (callSched (win_setTimeout (protectWindowSetTimeout demo_g1 (demo_init true)))
                 VWindow (PlainFn 0) rest (demo_init true)).2 =
    [EvHost SetTimeout VWindow [VFn w; VNum 10]] /\
  [VFn w; VNum 10] <> VFn w :: rest /\
  log (callSched (win_setInterval (protectWindowSetInterval demo_g1 (demo_init false)))
                 VWindow (PlainFn 0) rest (demo_init false)).2 =
    [EvHost SetInterval VUndefined [VFn w; VNum 10]] /\
  VUndefined <> VWindow /\
  log (callSched (win_setTimeout (protectWindowSetTimeout demo_g1 (demo_init true)))
                 VUndefined (PlainFn 0) rest (demo_init true)).2 =
    [EvHost SetTimeout VWindow [VFn w; VNum 10]].
Proof. vm_compute. repeat split; done. Qed.

(** *** The further properties at concrete inputs *)

(** X12 at a cut after a line feed. *)
Lemma replaceNewlines_app_witness :
  replaceNewlines (String "a" (String LF EmptyString) +:+ "b")
  = replaceNewlines (String "a" (String LF EmptyString)) +:+ replaceNewlines "b".
Proof. apply replaceNewlines_app. reflexivity. Defined.

(** X13 at two lines. *)
Lemma replaceNewlines_line_break_witness :
  replaceNewlines ("at f" +:+ String CR (String LF "at g"))
    = "at f" +:+ STACK_BR +:+ replaceNewlines "at g" /\
  replaceNewlines ("at f" +:+ String LF "at g")
    = "at f" +:+ STACK_BR +:+ replaceNewlines "at g".
Proof. apply replaceNewlines_line_break. reflexivity. Defined.

(** X11 at a one-line stack. *)
Lemma getStackTraceHolder_verbatim_witness :
  getStackTraceHolder_ "at f"
  = "##PE_STACK_START##" +:+ "at f" +:+ "##PE_STACK_END##".
Proof. apply getStackTraceHolder_verbatim. reflexivity. Defined.

(** X1: guard 1 sets its flag; guard 2 keeps its own. *)
Lemma setAddTracers_sets_one_flag_witness :
  let s' := setAddTracersToProtectedFunctions demo_g1 true (demo_init true) in
  traceFlag demo_g1 s' = true /\
  traceFlag demo_g2 s' = traceFlag demo_g2 (demo_init true) /\
  props s' = props (demo_init true) /\ log s' = log (demo_init true) /\
  user s' = user (demo_init true) /\
  setAddTracersToProtectedFunctions demo_g1 true s' = s' /\
  exists id st,
    (protectEntryPoint demo_g1 (PlainFn 0) s').1
    = ProtectedFn id demo_g1 true st (PlainFn 0).
Proof.
  apply (setAddTracers_sets_one_flag (E:=demo_env) demo_g1 demo_g2 true
           (PlainFn 0) (demo_init true)).
  - discriminate.
  - apply demo_init_memo_ok.
Defined.

(** X2 on a page where no setter was called. *)
Lemma unset_flag_means_no_tracing_witness :
  traceFlag demo_g1 (demo_init true) = false /\
  (exists id st,
     (protectEntryPoint demo_g1 (PlainFn 1) (demo_init true)).1
     = ProtectedFn id demo_g1 false st (PlainFn 1)) /\
  log (protectEntryPoint demo_g1 (PlainFn 1) (demo_init true)).2
    = log (demo_init true) /\
  count is_tracer_call
    (events (protectEntryPoint demo_g1 (PlainFn 1) (demo_init true)).1
            VWindow [] (demo_init true))
  = count is_tracer_call
      (events (PlainFn 1) (sloppyThis VWindow) [] (demo_init true)).
Proof.
  apply (unset_flag_means_no_tracing (E:=demo_env) demo_g1 (PlainFn 1)
           (demo_init true) VWindow [] (demo_init true)).
  - reflexivity.
  - apply demo_init_memo_ok.
Defined.


(** X6 along the run of [demo_later]. *)
Lemma memo_ok_reachable_witness : memo_ok (demo_later (demo_init true)).
Proof.
  apply (memo_ok_reachable (E:=demo_env) (demo_init true)).
  - reflexivity.
  - apply demo_later_steps.
Defined.

(** X8 at function 4 protected twice, the second time with tracing, and
    called with no receiver: the function is given the global object. *)
Lemma tower_returns_iff_witness :
  let w1 := demo_protect demo_g2 (PlainFn 4) (demo_init true) in
  let s1 := demo_protected demo_g2 (PlainFn 4) (demo_init true) in
  let s2 := setAddTracersToProtectedFunctions demo_g1 true s1 in
  let w2 := demo_protect demo_g1 w1 s2 in
  (call w2 VUndefined [] s2).1 = Return VWindow /\
  user (call w2 VUndefined [] s2).2 =
    (@behaviour demo_env (innermost w2) VWindow [] (user s2)).2.
Proof.
  destruct (tower_returns_iff (E:=demo_env)
              (demo_protect demo_g1
                 (demo_protect demo_g2 (PlainFn 4) (demo_init true))
                 (setAddTracersToProtectedFunctions demo_g1 true
                    (demo_protected demo_g2 (PlainFn 4) (demo_init true))))
              VUndefined []
              (setAddTracersToProtectedFunctions demo_g1 true
                 (demo_protected demo_g2 (PlainFn 4) (demo_init true)))
              VWindow) as (Hiff & Hu & _).
  - vm_compute. split; [intros _; by eexists|].
    split; [discriminate|exact I].
  - assert ((call (demo_protect demo_g1
                 (demo_protect demo_g2 (PlainFn 4) (demo_init true))
                 (setAddTracersToProtectedFunctions demo_g1 true
                    (demo_protected demo_g2 (PlainFn 4) (demo_init true))))
              VUndefined []
              (setAddTracersToProtectedFunctions demo_g1 true
                 (demo_protected demo_g2 (PlainFn 4) (demo_init true)))).1
            = Return VWindow) as Hr.
    { apply Hiff. reflexivity. }
    split; [exact Hr|]. exact (Hu Hr).
Defined.

(** X9 with guard 1 installed first and guard 2 last. *)
Lemma double_install_wraps_twice_witness :
  let s := demo_init true in
  let rest := [VNum 10] in
  let w1 := (protectEntryPoint demo_g2 (PlainFn 0) s).1 in
  let s1 := (protectEntryPoint demo_g2 (PlainFn 0) s).2 in
  let w2 := (protectEntryPoint demo_g1 w1 s1).1 in
  let s2 := (protectEntryPoint demo_g1 w1 s1).2 in
  (exists id1 st1 tr1 id2 st2 tr2,
     w2 = ProtectedFn id2 demo_g1 tr2 st2
            (ProtectedFn id1 demo_g2 tr1 st1 (PlainFn 0))) /\
  log (callSched
         (win_setTimeout
            (protectWindowSetTimeout demo_g2
               (protectWindowSetTimeout demo_g1 (demo_init true))))
         VWindow (PlainFn 0) rest s).2 =
    log s2 ++ [EvHost SetTimeout (if true then sloppyThis VWindow else VUndefined)
                      [VFn w2; hd VUndefined rest]] /\
  log (callSched
         (win_setInterval
            (protectWindowSetInterval demo_g2
               (protectWindowSetInterval demo_g1 (demo_init true))))
         VWindow (PlainFn 0) rest s).2 =
    log s2 ++ [EvHost SetInterval (if true then sloppyThis VWindow else VUndefined)
                      [VFn w2; hd VUndefined rest]].
Proof.
  apply (double_install_wraps_twice (E:=demo_env) demo_g1 demo_g2
           (demo_init true) true true VWindow (PlainFn 0) [VNum 10]
           (demo_init true)).
  - reflexivity.
  - reflexivity.
  - apply demo_init_memo_ok.
  - exact I.
Defined.


Lemma tower_handler_calls_bounded_witness :
  let w1 := demo_protect demo_g1 (PlainFn 1) (demo_init true) in
  let s1 := demo_protected demo_g1 (PlainFn 1) (demo_init true) in
  let s2 := setAddTracersToProtectedFunctions demo_g1 true s1 in
  let w2 := demo_protect demo_g1 w1 s2 in
  count is_handler_call (events w2 VWindow [] s2) <= layers w2.
Proof.
  apply (tower_handler_calls_bounded (E:=demo_env)).
  vm_compute. split; [intros _; by eexists|].
  split; [discriminate|exact I].
Defined.

(** X16 at function 1 under guard 1, whose handler records what it is
    given. *)
Lemma handler_runs_on_state_left_witness :
  let s := demo_protected demo_g1 (PlainFn 1) (demo_init true) in
  let w := demo_protect demo_g1 (PlainFn 1) (demo_init true) in
  user (call w VWindow [] s).2 =
    (@behaviour demo_env (@errorHandlerFn_ demo_env demo_g1) (VGuard demo_g1)
       [VStr "x"] (user (call (PlainFn 1) (sloppyThis VWindow) [] s).2)).2 /\
  last (visible (events w VWindow [] s))
  = Some (EvHandler demo_g1 (VGuard demo_g1) (VStr "x")).
Proof.
  apply (handler_runs_on_state_left (E:=demo_env) demo_g1 (PlainFn 1)
           (demo_init true) _
           (demo_protected demo_g1 (PlainFn 1) (demo_init true))).
  - apply demo_init_memo_ok.
  - reflexivity.
  - reflexivity.
Defined.
